(** * msggen schema ingestion: contrib/msggen/msggen/utils/utils.py

    A shallow embedding of the schema bundler ([combine_schemas]), the
    bundle cache ([get_schema_bundle]), the two loaders
    ([load_jsonrpc_method], [load_notification]) and the service
    assembler ([load_jsonrpc_service]).

    Modelling conventions.
    - Python strings are [String.string]; [str.lower] is modelled on the
      ASCII letters A-Z, which is all the manifest uses.
    - A parsed JSON document is [json]; a JSON object (a Python [dict] or
      [OrderedDict] coming out of [json.load]) is an association list kept in
      insertion order, and [d[k]] finds the entry for [k].
    - A raised exception is [Err e] of the error monad [result]; the code
      that reads the process-wide cache runs in the state-and-error monad
      [M] over [Process].
    - [json.load] on a text is the parameter [loads] (Python's standard
      library, not code of this repository). *)

From Stdlib Require Import String List Bool Ascii PeanoNat NArith Permutation Sorting Lia.
Import ListNotations.
Open Scope string_scope.
Set Warnings "-register-all".

(** ** Data: JSON documents and Python exceptions *)

Inductive json : Type :=
| JNull
| JBool (b : bool)
| JNum (repr : string)   (* a number, as the text [json.dump] writes for it *)
| JStr (s : string)
| JArr (xs : list json)
| JObj (kvs : list (string * json)).

(** The exceptions the code can raise. *)
Inductive exn : Type :=
| KeyError (k : string)
| TypeError
| FileNotFoundError (p : list string)
| NotADirectoryError (p : list string)
| IsADirectoryError (p : list string)
| JSONDecodeError (p : list string).

Inductive result (A : Type) : Type :=
| Ok (a : A)
| Err (e : exn).
Arguments Ok {A} a.
Arguments Err {A} e.

Class Monad (m : Type -> Type) := {
  ret : forall {A}, A -> m A;
  bind : forall {A B}, m A -> (A -> m B) -> m B
}.

Notation "x <- c1 ;; c2" := (bind c1 (fun x => c2))
  (at level 61, c1 at next level, right associativity).

#[export] Instance result_monad : Monad result := {
  ret := fun _ a => Ok a;
  bind := fun _ _ r k => match r with Ok a => k a | Err e => Err e end
}.

(** [[x for x in xs]] with a call that may raise: the first exception
    aborts the comprehension. *)
Fixpoint mapM {m} `{Monad m} {A B} (f : A -> m B) (xs : list A) : m (list B) :=
  match xs with
  | [] => ret []
  | x :: xs' => y <- f x ;; ys <- mapM f xs' ;; ret (y :: ys)
  end.

(** [d[k]] on a parsed JSON value: a [KeyError] on a [dict] without [k],
    a [TypeError] on a value that is not a [dict]. *)
Fixpoint assoc {A} (k : string) (kvs : list (string * A)) : option A :=
  match kvs with
  | [] => None
  | (k', v) :: kvs' => if String.eqb k k' then Some v else assoc k kvs'
  end.

Definition getitem (j : json) (k : string) : result json :=
  match j with
  | JObj kvs => match assoc k kvs with Some v => Ok v | None => Err (KeyError k) end
  | _ => Err TypeError
  end.

(** [str.lower] on ASCII. *)
Definition lower_ascii (c : ascii) : ascii :=
  let n := nat_of_ascii c in
  if Nat.leb 65 n && Nat.leb n 90 then ascii_of_nat (n + 32)%nat else c.

Fixpoint lower (s : string) : string :=
  match s with
  | EmptyString => EmptyString
  | String c s' => String (lower_ascii c) (lower s')
  end.

(** ** The type model (msggen.model)

    [CompositeField] is built by the type-model builder and carries a
    mutable [typename]; [Method], [Notification] and [Service] are the
    records the loaders and the assembler construct. [TypeName(s)] is the
    name [s] itself. *)
Module CompositeField.
Record t : Type := mk {
  typename : string;
  path : string;
  schema : json
}.
(** [f.typename = n] on a field owned by one record. *)
Definition set_typename (f : t) (n : string) : t := mk n (path f) (schema f).
End CompositeField.

Module Method.
Record t : Type := mk {
  name : string;
  request : CompositeField.t;
  response : CompositeField.t
}.
End Method.

Module Notification.
Record t : Type := mk {
  name : string;
  typename : string;
  request : CompositeField.t;
  response : CompositeField.t
}.
End Notification.

Module Service.
Record t : Type := mk {
  name : string;
  methods : list Method.t;
  notifications : list Notification.t;
  includes : list string
}.
(** [service.includes = xs] *)
Definition set_includes (s : t) (xs : list string) : t :=
  mk (name s) (methods s) (notifications s) xs.
End Service.

(** ** The process and its bundle cache

    [@functools.lru_cache(maxsize=1)] on the argument-less
    [get_schema_bundle]: the cache holds at most the one result of a
    successful call. A value returned to the caller is an object of the
    Python heap; [obj] pairs its identity with its contents, and
    [next_id] is the next identity the allocator hands out. [storage] is the
    packaged [msggen/schema.json] ([None] when it cannot be opened), and
    [reads] counts the times it was opened. *)
Definition obj : Type := (nat * json)%type.

Record Process : Type := mkProcess {
  cache : option obj;
  storage : option string;
  next_id : nat;
  reads : nat
}.

Definition M (A : Type) : Type := Process -> result A * Process.

#[export] Instance M_monad : Monad M := {
  ret := fun _ a p => (Ok a, p);
  bind := fun _ _ c k p =>
    match c p with
    | (Ok a, p') => k a p'
    | (Err e, p') => (Err e, p')
    end
}.

Definition liftR {A} (r : result A) : M A := fun p => (r, p).

(** ** The file system seen by [combine_schemas]

    A directory lists its entries in the order [Path.iterdir] yields them,
    which the operating system chooses. *)
Inductive node : Type :=
| File (contents : string)
| Dir (entries : list (string * node)).

Definition path : Type := list string.

Fixpoint lookup (n : node) (p : path) : option node :=
  match p with
  | [] => Some n
  | c :: p' =>
      match n with
      | Dir es => match assoc c es with Some n' => lookup n' p' | None => None end
      | File _ => None
      end
  end.

(** [list(d.iterdir())], as the names of the entries of [d]. *)
Definition iterdir (fs : node) (d : path) : result (list string) :=
  match lookup fs d with
  | None => Err (FileNotFoundError d)
  | Some (File _) => Err (NotADirectoryError d)
  | Some (Dir es) => Ok (map fst es)
  end.

(** [sorted(...)] on the paths of one directory: paths with the same parent
    compare by their names, code point by code point. *)
Fixpoint insert (x : string) (l : list string) : list string :=
  match l with
  | [] => [x]
  | y :: l' => if String.leb x y then x :: l else y :: insert x l'
  end.

Definition sorted (l : list string) : list string := fold_right insert [] l.

(** [str.endswith]. *)
Definition endswith (s suffix : string) : bool :=
  let n := String.length s in
  let m := String.length suffix in
  Nat.leb m n && String.eqb (substring (n - m) m s) suffix.

(** [od[k] = v] on an [OrderedDict]: a new key goes last, an existing key
    keeps its place. *)
Fixpoint odict_set {A} (kvs : list (string * A)) (k : string) (v : A) : list (string * A) :=
  match kvs with
  | [] => [(k, v)]
  | (k', v') :: kvs' =>
      if String.eqb k k' then (k', v) :: kvs' else (k', v') :: odict_set kvs' k v
  end.

(** ** [json.dump(obj, f, indent=2)]

    The encoder of Python's [json] module with an integer indent: separators
    [","] and [": "], each item on its own line indented by [indent] spaces
    per level, empty containers as [{}] and [[]], strings through
    [encode_basestring_ascii]. *)
Definition dq : string := String (ascii_of_nat 34) EmptyString.
Definition bs : string := String (ascii_of_nat 92) EmptyString.
Definition nl : string := String (ascii_of_nat 10) EmptyString.

Definition hexdigit (n : nat) : string :=
  String (ascii_of_nat (if Nat.ltb n 10 then (48 + n)%nat else (87 + n)%nat)) EmptyString.

(** One character of [encode_basestring_ascii]: ESCAPE_DCT for the
    backslash, the quote and the five named controls, [\u00xx] in lower-case
    hex for the other characters outside space..tilde. *)
Definition escape_char (c : ascii) : string :=
  let n := nat_of_ascii c in
  if Nat.eqb n 92 then bs ++ bs
  else if Nat.eqb n 34 then bs ++ dq
  else if Nat.eqb n 8 then bs ++ "b"
  else if Nat.eqb n 12 then bs ++ "f"
  else if Nat.eqb n 10 then bs ++ "n"
  else if Nat.eqb n 13 then bs ++ "r"
  else if Nat.eqb n 9 then bs ++ "t"
  else if Nat.leb 32 n && Nat.leb n 126 then String c EmptyString
  else bs ++ "u00" ++ hexdigit (Nat.div n 16) ++ hexdigit (Nat.modulo n 16).

Fixpoint escape (s : string) : string :=
  match s with
  | EmptyString => EmptyString
  | String c s' => escape_char c ++ escape s'
  end.

Definition encode_string (s : string) : string := dq ++ escape s ++ dq.

Fixpoint spaces (n : nat) : string :=
  match n with
  | O => EmptyString
  | S n' => String " " (spaces n')
  end.

(** [newline_indent] at a level. *)
Definition newline_indent (indent level : nat) : string := nl ++ spaces (indent * level).

Fixpoint join (sep : string) (xs : list string) : string :=
  match xs with
  | [] => EmptyString
  | [x] => x
  | x :: xs' => x ++ sep ++ join sep xs'
  end.

Fixpoint dump (indent level : nat) (j : json) : string :=
  match j with
  | JNull => "null"
  | JBool true => "true"
  | JBool false => "false"
  | JNum r => r
  | JStr s => encode_string s
  | JArr [] => "[]"
  | JArr xs =>
      "[" ++ newline_indent indent (S level)
      ++ join ("," ++ newline_indent indent (S level)) (map (dump indent (S level)) xs)
      ++ newline_indent indent level ++ "]"
  | JObj [] => "{}"
  | JObj kvs =>
      "{" ++ newline_indent indent (S level)
      ++ join ("," ++ newline_indent indent (S level))
           (map (fun '(k, v) => encode_string k ++ ": " ++ dump indent (S level) v) kvs)
      ++ newline_indent indent level ++ "}"
  end.

(** [dest.open(mode='w')] then writing [text]: creates or truncates the file
    [dest]; raises when the parent is missing or is not a directory, or when
    [dest] is a directory. *)
Fixpoint write_at (dest : path) (n : node) (p : path) (text : string) : result node :=
  match p, n with
  | [], _ => Err (IsADirectoryError dest)
  | _, File _ => Err (NotADirectoryError dest)
  | [c], Dir es =>
      match assoc c es with
      | Some (Dir _) => Err (IsADirectoryError dest)
      | _ => Ok (Dir (odict_set es c (File text)))
      end
  | c :: p', Dir es =>
      match assoc c es with
      | Some n' => n'' <- write_at dest n' p' text ;; Ok (Dir (odict_set es c n''))
      | None => Err (FileNotFoundError dest)
      end
  end.

Definition write_file (fs : node) (dest : path) (text : string) : result node :=
  write_at dest fs dest text.

(** ** The manifest of [load_jsonrpc_service]

    The active entries of [method_names], in declared order; the
    commented-out entries of the source ([funderupdate], [multiwithdraw],
    [parsefeerate], [ListConfigs], [check], [notifications], [help]) are
    not data. *)
Definition method_names : list string := [
  "Getinfo";
  "ListPeers";
  "ListFunds";
  "SendPay";
  "ListChannels";
  "AddGossip";
  "AutoCleanInvoice";
  "AutoClean-Once";
  "AutoClean-Status";
  "CheckMessage";
  "Close";
  "Connect";
  "CreateInvoice";
  "Datastore";
  "DatastoreUsage";
  "CreateOnion";
  "DelDatastore";
  "DelInvoice";
  "Invoice";
  "ListDatastore";
  "ListInvoices";
  "SendOnion";
  "ListSendPays";
  "ListTransactions";
  "Pay";
  "ListNodes";
  "WaitAnyInvoice";
  "WaitInvoice";
  "WaitSendPay";
  "NewAddr";
  "Withdraw";
  "KeySend";
  "FundPsbt";
  "SendPsbt";
  "SignPsbt";
  "UtxoPsbt";
  "TxDiscard";
  "TxPrepare";
  "TxSend";
  "ListPeerChannels";
  "ListClosedChannels";
  "DecodePay";
  "Decode";
  "DelPay";
  "DelForward";
  "DisableOffer";
  "Disconnect";
  "Feerates";
  "FetchInvoice";
  "FundChannel_Cancel";
  "FundChannel_Complete";
  "FundChannel";
  "FundChannel_Start";
  "GetLog";
  "GetRoute";
  "ListForwards";
  "ListOffers";
  "ListPays";
  "ListHtlcs";
  "MultiFundChannel";
  "Offer";
  "OpenChannel_Abort";
  "OpenChannel_Bump";
  "OpenChannel_Init";
  "OpenChannel_Signed";
  "OpenChannel_Update";
  "Ping";
  "Plugin";
  "RenePayStatus";
  "RenePay";
  "ReserveInputs";
  "SendCustomMsg";
  "SendInvoice";
  "SendOnionMessage";
  "SetChannel";
  "SetConfig";
  "SetPsbtVersion";
  "SignInvoice";
  "SignMessage";
  "Splice_Init";
  "Splice_Signed";
  "Splice_Update";
  "UnreserveInputs";
  "UpgradeWallet";
  "WaitBlockHeight";
  "Wait";
  "Stop";
  "PreApproveKeysend";
  "PreApproveInvoice";
  "StaticBackup";
  "Bkpr-ChannelsApy";
  "Bkpr-DumpIncomeCsv";
  "Bkpr-Inspect";
  "Bkpr-ListAccountEvents";
  "Bkpr-ListBalances";
  "Bkpr-ListIncome"
].

(** [notification_names]: each [{"name": n, "typename": t}] as [(n, t)]. *)
Definition notification_names : list (string * string) := [
  ("block_added", "BlockAdded");
  ("channel_open_failed", "ChannelOpenFailed");
  ("channel_opened", "ChannelOpened");
  ("connect", "Connect");
  ("custommsg", "CustomMsg")
].

Section Loaders.

(** [json.load]: [None] when the text is not a JSON document. *)
Variable loads : string -> option json.

(** [resources.open_text("msggen", "schema.json")] then [json.load],
    under the cache. *)
Definition get_schema_bundle : M obj := fun p =>
  match cache p with
  | Some o => (Ok o, p)
  | None =>
      let p1 := mkProcess None (storage p) (next_id p) (S (reads p)) in
      match storage p with
      | None => (Err (FileNotFoundError ["msggen"; "schema.json"]), p1)
      | Some txt =>
          match loads txt with
          | None => (Err (JSONDecodeError ["msggen"; "schema.json"]), p1)
          | Some j =>
              let o := (next_id p, j) in
              (Ok o, mkProcess (Some o) (storage p) (S (next_id p)) (S (reads p)))
          end
      end
  end.

(** The type-model builder [CompositeField.from_js(js, path=name)], code of
    msggen.model that is not part of utils.py. The spec treats it as an
    opaque collaborator [build(schema_subtree, path_hint) -> CompositeField]
    whose result carries a type name; it builds a fresh field on every call,
    so the request and response fields of one record never alias. Every
    statement below holds for every such builder. *)
Variable from_js : json -> string -> CompositeField.t.

Definition rpc_name (name : string) : string :=
  "lightning-" ++ lower name ++ ".json".

(** [schema["methods"][rpc_name][which]] *)
Definition method_subtree (schema : json) (name which : string) : result json :=
  ms <- getitem schema "methods" ;;
  m <- getitem ms (rpc_name name) ;;
  getitem m which.

(** The body of [load_jsonrpc_method] after [schema = get_schema_bundle()]. *)
Definition method_of (schema : json) (name : string) : result Method.t :=
  rq <- method_subtree schema name "request" ;;
  let request := from_js rq name in
  rs <- method_subtree schema name "response" ;;
  let response := from_js rs name in
  (* request.typename += "Request"; response.typename += "Response" *)
  let request := CompositeField.set_typename request (CompositeField.typename request ++ "Request") in
  let response := CompositeField.set_typename response (CompositeField.typename response ++ "Response") in
  ret (Method.mk name request response).

Definition load_jsonrpc_method (name : string) : M Method.t :=
  o <- get_schema_bundle ;;
  liftR (method_of (snd o) name).

Definition req_file (name : string) : string := lower name ++ ".request.json".
Definition resp_file (name : string) : string := lower name ++ ".schema.json".

(** The body of [load_notification] after [schema = get_schema_bundle()]. *)
Definition notification_of (schema : json) (name typename : string) : result Notification.t :=
  notifications <- getitem schema "notifications" ;;
  rq <- getitem notifications (req_file name) ;;
  let request := from_js rq name in
  rs <- getitem notifications (resp_file name) ;;
  let response := from_js rs name in
  let request := CompositeField.set_typename request ("Stream" ++ typename ++ "Request") in
  let response := CompositeField.set_typename response (typename ++ "Notification") in
  ret (Notification.mk name typename request response).

Definition load_notification (name typename : string) : M Notification.t :=
  o <- get_schema_bundle ;;
  liftR (notification_of (snd o) name typename).

(** The list comprehensions of [load_jsonrpc_service] over the manifest;
    [Service(name="Node", ...)] starts without includes, which the next
    statement sets. *)
Definition load_jsonrpc_service : M Service.t :=
  methods <- mapM load_jsonrpc_method method_names ;;
  notifications <- mapM (fun d => load_notification (fst d) (snd d)) notification_names ;;
  let service := Service.mk "Node" methods notifications [] in
  ret (Service.set_includes service ["primitives.proto"]).

(** The body of [load_jsonrpc_service] once the bundle is in the cache:
    every later [get_schema_bundle()] of the loaders returns it. *)
Definition service_of (schema : json) : result Service.t :=
  methods <- mapM (method_of schema) method_names ;;
  notifications <- mapM (fun d => notification_of schema (fst d) (snd d)) notification_names ;;
  ret (Service.set_includes (Service.mk "Node" methods notifications []) ["primitives.proto"]).

(** [json.load(f.open())] on a file of the schema tree. *)
Definition open_load (fs : node) (f : path) : result json :=
  match lookup fs f with
  | None => Err (FileNotFoundError f)
  | Some (Dir _) => Err (IsADirectoryError f)
  | Some (File c) =>
      match loads c with
      | None => Err (JSONDecodeError f)
      | Some j => Ok j
      end
  end.

(** The two [for f in files] loops: [keep] is the negation of the
    [continue] test, and each kept file is parsed into the dict. *)
Fixpoint collect (fs : node) (d : path) (keep : string -> bool)
    (files : list string) (acc : list (string * json)) : result (list (string * json)) :=
  match files with
  | [] => Ok acc
  | f :: files' =>
      if keep f then
        j <- open_load fs (d ++ [f])%list ;;
        collect fs d keep files' (odict_set acc f j)
      else collect fs d keep files' acc
  end.

Definition keep_method (n : string) : bool :=
  negb (negb (endswith n ".json") || String.eqb n "lightning-sql.json").

Definition keep_notification (n : string) : bool :=
  negb (negb (endswith n "json")).

(** The pure part of [combine_schemas]: everything before the write. *)
Definition build_bundle (fs : node) (schema_dir : path) : result json :=
  files <- iterdir fs schema_dir ;;
  methods <- collect fs schema_dir keep_method (sorted files) [] ;;
  let notifications_dir := (schema_dir ++ ["notification"])%list in
  files <- iterdir fs notifications_dir ;;
  notifications <- collect fs notifications_dir keep_notification (sorted files) [] ;;
  Ok (JObj [("methods", JObj methods); ("notifications", JObj notifications)]).

(** [combine_schemas(schema_dir, dest)]: the returned bundle and the file
    system afterwards; a raised exception leaves the file system as it
    was. *)
Definition combine_schemas (fs : node) (schema_dir dest : path) : result json * node :=
  match build_bundle fs schema_dir with
  | Err e => (Err e, fs)
  | Ok bundle =>
      match write_file fs dest (dump 2 0 bundle) with
      | Err e => (Err e, fs)
      | Ok fs' => (Ok bundle, fs')
      end
  end.

End Loaders.

(** ** Builders and inputs used by the statements *)

(** Modelled from the spec: the type-model builder
    [CompositeField.from_js] of msggen.model, not part of utils.py. The spec
    gives its contract [build(schema_subtree, path_hint) -> CompositeField],
    says the raw schema assigns the base type name and that the path hint
    serves diagnostics, not identity. This instance reads the base name from
    the subtree's ["title"] member, and names a subtree without one
    ["Object"]. *)
Definition title_from_js (js : json) (path : string) : CompositeField.t :=
  let name := match getitem js "title" with Ok (JStr t) => t | _ => "Object" end in
  CompositeField.mk name path js.

(** A builder that names a type tree after its path hint. *)
Definition path_from_js (js : json) (path : string) : CompositeField.t :=
  CompositeField.mk path path js.

(** A JSON text reader that knows the one text [{}]. *)
Definition braces : string := "{}".

Definition small_loads (txt : string) : option json :=
  if String.eqb txt braces then Some (JObj []) else None.

(** The subtree [{"required": [], "properties": {}}] of a call without
    parameters. *)
Definition empty_schema : json := JObj [("required", JArr []); ("properties", JObj [])].

(** A bundle with the two files of every manifest method and both files of
    every manifest notification. *)
Definition manifest_bundle : json :=
  JObj [("methods",
         JObj (map (fun n => (rpc_name n, JObj [("request", empty_schema); ("response", empty_schema)]))
                   method_names));
        ("notifications",
         JObj (flat_map (fun d => [(req_file (fst d), empty_schema); (resp_file (fst d), empty_schema)])
                        notification_names))].

(** A process whose cache already holds [manifest_bundle]. *)
Definition manifest_process : Process := mkProcess (Some (0, manifest_bundle)%nat) None 1 1.

(** Names within one directory are distinct. *)
Definition fs_wf (fs : node) : Prop :=
  forall d es, lookup fs d = Some (Dir es) -> NoDup (map fst es).

Fixpoint nodupb (l : list string) : bool :=
  match l with
  | [] => true
  | x :: l' => negb (existsb (String.eqb x) l') && nodupb l'
  end.

Fixpoint wfb (n : node) : bool :=
  match n with
  | File _ => true
  | Dir es => nodupb (map fst es) && forallb (fun '(_, n') => wfb n') es
  end.

(** Two entries hold the same thing for [combine_schemas]: the same file
    contents, or both a directory, or both nothing. *)
Definition same_entry (a b : option node) : Prop :=
  match a, b with
  | Some (File c1), Some (File c2) => c1 = c2
  | Some (Dir _), Some (Dir _) => True
  | None, None => True
  | _, _ => False
  end.

(** Directory [d] has the same contents in [fs1] and [fs2], the operating
    system listing its entries in any two orders. *)
Definition same_listing (fs1 fs2 : node) (d : path) : Prop :=
  exists es1 es2,
    lookup fs1 d = Some (Dir es1) /\ lookup fs2 d = Some (Dir es2) /\
    NoDup (map fst es1) /\ Permutation (map fst es1) (map fst es2) /\
    forall f, same_entry (assoc f es1) (assoc f es2).

(** A schema tree whose notification directory holds [notes.ndjson] with
    the given text next to a notification schema. *)
Definition ndjson_fs (notes : string) : node :=
  Dir [("schemas",
        Dir [("notification",
              Dir [("notes.ndjson", File notes); ("block_added.request.json", File braces)]);
             ("lightning-getinfo.json", File braces)])].

(** Two newline-delimited JSON records, not one JSON document. *)
Definition two_records : string := braces ++ nl ++ braces.

(** One schema tree, listed by the operating system in two orders. *)
Definition listed_fs : node :=
  Dir [("schemas",
        Dir [("lightning-getinfo.json", File braces);
             ("notification", Dir [("block_added.request.json", File braces); ("block_added.schema.json", File braces)]);
             ("lightning-connect.json", File braces);
             ("lightning-sql.json", File braces)])].

Definition relisted_fs : node :=
  Dir [("schemas",
        Dir [("lightning-sql.json", File braces);
             ("lightning-connect.json", File braces);
             ("notification", Dir [("block_added.schema.json", File braces); ("block_added.request.json", File braces)]);
             ("lightning-getinfo.json", File braces)])].

(** ** Runs of the process used in the statements *)

(** The packaged file replaced (or removed, [None]) by the storage layer. *)
Definition set_storage (p : Process) (st : option string) : Process :=
  mkProcess (cache p) st (next_id p) (reads p).

(** Later calls of [get_schema_bundle()], the storage layer changing before
    each one. *)
Fixpoint calls (loads : string -> option json) (sts : list (option string)) (p : Process)
    : list (result obj) * Process :=
  match sts with
  | [] => ([], p)
  | st :: sts' =>
      let '(r, p1) := get_schema_bundle loads (set_storage p st) in
      let '(rs, p2) := calls loads sts' p1 in
      (r :: rs, p2)
  end.

(** [p] is [q] or one of its parent directories. *)
Fixpoint is_prefix (p q : path) : bool :=
  match p, q with
  | [], _ => true
  | x :: p', y :: q' => String.eqb x y && is_prefix p' q'
  | _ :: _, [] => false
  end.

(** ** The bundle cache *)

Lemma get_schema_bundle_hit loads p o :
  cache p = Some o -> get_schema_bundle loads p = (Ok o, p).
Proof. intros H. unfold get_schema_bundle. now rewrite H. Qed.

Lemma get_schema_bundle_ok loads p o q :
  get_schema_bundle loads p = (Ok o, q) ->
  cache q = Some o /\ storage q = storage p /\ (cache p = None \/ q = p).
Proof.
  unfold get_schema_bundle. destruct (cache p) as [o'|] eqn:Hc.
  - intros H. inversion H; subst. auto.
  - destruct (storage p) as [txt|]; [|discriminate].
    destruct (loads txt) as [j|]; [|discriminate].
    intros H. inversion H; subst. simpl. auto.
Qed.

(** C4 *)
(** After a first call of [get_schema_bundle()] returns the object [o], every
    later call returns the same object [o] (same identity, same contents),
    without opening the packaged file again, whatever the storage layer holds
    before each call, also nothing at all. *)
Theorem get_schema_bundle_memoized (loads : string -> option json) (p q : Process) (o : obj) :
  get_schema_bundle loads p = (Ok o, q) ->
  forall sts : list (option string),
    fst (calls loads sts q) = repeat (Ok o) (length sts) /\
    reads (snd (calls loads sts q)) = reads q /\
    cache (snd (calls loads sts q)) = Some o.
Proof.
  intros H. apply get_schema_bundle_ok in H. destruct H as [Hc _].
  intros sts. revert q Hc. induction sts as [|st sts IH]; intros q Hc; cbn [calls].
  - auto.
  - rewrite (get_schema_bundle_hit loads (set_storage q st) o Hc).
    destruct (calls loads sts (set_storage q st)) as [rs p2] eqn:E.
    specialize (IH (set_storage q st) Hc). rewrite E in IH. simpl in *.
    destruct IH as [-> [-> ->]]. auto.
Qed.

(** ** The loaders read the cached bundle and are otherwise pure *)

Lemma mapM_state_free {A B} (f : A -> M B) (g : A -> result B) (xs : list A) (p : Process) :
  (forall x, f x p = (g x, p)) -> mapM f xs p = (mapM g xs, p).
Proof.
  intros Hf. induction xs as [|x xs IH]; simpl; [reflexivity|].
  rewrite Hf. destruct (g x) as [y|e]; [|reflexivity].
  rewrite IH. destruct (mapM g xs); reflexivity.
Qed.

Lemma mapM_result_ok {A B} (g : A -> result B) (xs : list A) (ys : list B) :
  mapM g xs = Ok ys -> Forall2 (fun x y => g x = Ok y) xs ys.
Proof.
  revert ys. induction xs as [|x xs IH]; simpl; intros ys H.
  - inversion H. constructor.
  - destruct (g x) as [y|e] eqn:Hg; [|discriminate].
    destruct (mapM g xs) as [ys'|e] eqn:Hm; [|discriminate].
    inversion H; subst. constructor; auto.
Qed.

Lemma mapM_result_err {A B} (g : A -> result B) (xs : list A) (e : exn) :
  mapM g xs = Err e -> exists x, In x xs /\ g x = Err e.
Proof.
  induction xs as [|x xs IH]; simpl; intros H; [discriminate|].
  destruct (g x) as [y|e'] eqn:Hg.
  - destruct (mapM g xs) as [ys|e''] eqn:Hm; [discriminate|].
    inversion H; subst. destruct (IH eq_refl) as [x' [Hin Hx]]. eauto.
  - inversion H; subst. eauto.
Qed.

Lemma mapM_result_all_ok {A B} (g : A -> result B) (xs : list A) :
  (forall x, In x xs -> exists y, g x = Ok y) -> exists ys, mapM g xs = Ok ys.
Proof.
  induction xs as [|x xs IH]; simpl; intros H; [eauto|].
  destruct (H x (or_introl eq_refl)) as [y Hy]. rewrite Hy.
  destruct IH as [ys Hys]; [intros; apply H; auto|]. rewrite Hys. eauto.
Qed.

Lemma load_jsonrpc_method_eq loads from_js p name :
  load_jsonrpc_method loads from_js name p =
  match get_schema_bundle loads p with
  | (Ok o, q) => (method_of from_js (snd o) name, q)
  | (Err e, q) => (Err e, q)
  end.
Proof. reflexivity. Qed.

Lemma load_notification_eq loads from_js p name typename :
  load_notification loads from_js name typename p =
  match get_schema_bundle loads p with
  | (Ok o, q) => (notification_of from_js (snd o) name typename, q)
  | (Err e, q) => (Err e, q)
  end.
Proof. reflexivity. Qed.

Lemma load_jsonrpc_method_cached loads from_js p o name :
  cache p = Some o ->
  load_jsonrpc_method loads from_js name p = (method_of from_js (snd o) name, p).
Proof.
  intros H. rewrite load_jsonrpc_method_eq, (get_schema_bundle_hit loads p o H).
  reflexivity.
Qed.

Lemma load_notification_cached loads from_js p o name typename :
  cache p = Some o ->
  load_notification loads from_js name typename p = (notification_of from_js (snd o) name typename, p).
Proof.
  intros H. rewrite load_notification_eq, (get_schema_bundle_hit loads p o H).
  reflexivity.
Qed.

Lemma bindM_eq {A B} (c : M A) (k : A -> M B) (p : Process) :
  bind c k p = match c p with (Ok a, p') => k a p' | (Err e, p') => (Err e, p') end.
Proof. reflexivity. Qed.

Lemma retM_eq {A} (a : A) (p : Process) : (ret a : M A) p = (Ok a, p).
Proof. reflexivity. Qed.

Lemma bindR_eq {A B} (r : result A) (k : A -> result B) :
  bind r k = match r with Ok a => k a | Err e => Err e end.
Proof. reflexivity. Qed.

(** [load_jsonrpc_service()] loads the bundle once (on its first loader
    call) and then computes [service_of] on it. *)
Lemma load_jsonrpc_service_eq loads from_js p :
  load_jsonrpc_service loads from_js p =
  match get_schema_bundle loads p with
  | (Ok o, q) => (service_of from_js (snd o), q)
  | (Err e, q) => (Err e, q)
  end.
Proof.
  unfold load_jsonrpc_service, service_of.
  assert (Hne : method_names = hd EmptyString method_names :: tl method_names)
    by reflexivity.
  rewrite Hne. generalize (hd EmptyString method_names) (tl method_names).
  intros x xs. cbn [mapM]. rewrite !bindM_eq, load_jsonrpc_method_eq.
  destruct (get_schema_bundle loads p) as [[o|e] q] eqn:E; [|reflexivity].
  apply get_schema_bundle_ok in E. destruct E as [Hc _].
  rewrite !bindR_eq.
  destruct (method_of from_js (snd o) x) as [m|e]; [|reflexivity].
  rewrite bindM_eq.
  rewrite (mapM_state_free _ _ xs q (fun n => load_jsonrpc_method_cached loads from_js q o n Hc)).
  destruct (mapM (method_of from_js (snd o)) xs) as [ms|e]; [|reflexivity].
  rewrite retM_eq, bindM_eq.
  rewrite (mapM_state_free _ _ notification_names q
             (fun d => load_notification_cached loads from_js q o (fst d) (snd d) Hc)).
  destruct (mapM _ notification_names) as [ns|e]; reflexivity.
Qed.

(** ** Strings *)

Fixpoint last_char (s : string) : option ascii :=
  match s with
  | EmptyString => None
  | String c EmptyString => Some c
  | String _ s' => last_char s'
  end.

Lemma last_char_append (a s : string) :
  s <> EmptyString -> last_char (a ++ s) = last_char s.
Proof.
  intros Hs. induction a as [|c a IH]; simpl; [reflexivity|].
  rewrite IH. destruct a; simpl; [destruct s; [congruence|reflexivity]|].
  reflexivity.
Qed.

Lemma request_response_differ (a b : string) : a ++ "Request" <> b ++ "Response".
Proof.
  intros H. apply (f_equal last_char) in H.
  rewrite !last_char_append in H by discriminate. discriminate H.
Qed.

Lemma length_append (a b : string) : String.length (a ++ b) = (String.length a + String.length b)%nat.
Proof. induction a as [|c a IH]; simpl; congruence. Qed.

Lemma append_suffix_inj (a b s : string) : a ++ s = b ++ s <-> a = b.
Proof.
  split; [|congruence].
  revert b. induction a as [|c a IH]; intros [|c' b] H; simpl in *.
  - reflexivity.
  - apply (f_equal String.length) in H. simpl in H. rewrite length_append in H. lia.
  - apply (f_equal String.length) in H. simpl in H. rewrite length_append in H. lia.
  - inversion H. f_equal. auto.
Qed.

(** ** The method loader *)

Lemma method_of_ok from_js b n m :
  method_of from_js b n = Ok m ->
  exists rq rs,
    method_subtree b n "request" = Ok rq /\
    method_subtree b n "response" = Ok rs /\
    m = Method.mk n
          (CompositeField.set_typename (from_js rq n) (CompositeField.typename (from_js rq n) ++ "Request"))
          (CompositeField.set_typename (from_js rs n) (CompositeField.typename (from_js rs n) ++ "Response")).
Proof.
  unfold method_of. rewrite !bindR_eq.
  destruct (method_subtree b n "request") as [rq|e]; [|discriminate].
  destruct (method_subtree b n "response") as [rs|e]; [|discriminate].
  intros H. inversion H. eauto.
Qed.

(** C1 *)
(** For a method whose bundle entry [lightning-<lower name>.json] has
    [request] and [response] subtrees, [load_jsonrpc_method] returns a
    Method whose request type name is the builder's base name followed by
    [Request] and whose response type name is the builder's base name
    followed by [Response]; the two differ. No method's request type name is
    any method's response type name. Across methods, two request (response)
    type names are equal exactly when the builder gave the two subtrees the
    same base name: the loader does not separate them. *)
Theorem method_typenames_suffixed loads from_js p i b q :
  get_schema_bundle loads p = (Ok (i, b), q) ->
  (forall name rq rs,
     method_subtree b name "request" = Ok rq ->
     method_subtree b name "response" = Ok rs ->
     exists m,
       load_jsonrpc_method loads from_js name p = (Ok m, q) /\
       CompositeField.typename (Method.request m) = CompositeField.typename (from_js rq name) ++ "Request" /\
       CompositeField.typename (Method.response m) = CompositeField.typename (from_js rs name) ++ "Response" /\
       CompositeField.typename (Method.request m) <> CompositeField.typename (Method.response m)) /\
  (forall n1 n2 m1 m2,
     method_of from_js b n1 = Ok m1 -> method_of from_js b n2 = Ok m2 ->
     CompositeField.typename (Method.request m1) <> CompositeField.typename (Method.response m2)) /\
  (forall n1 n2 rq1 rq2 rs1 rs2 m1 m2,
     method_subtree b n1 "request" = Ok rq1 -> method_subtree b n1 "response" = Ok rs1 ->
     method_subtree b n2 "request" = Ok rq2 -> method_subtree b n2 "response" = Ok rs2 ->
     method_of from_js b n1 = Ok m1 -> method_of from_js b n2 = Ok m2 ->
     (CompositeField.typename (Method.request m1) = CompositeField.typename (Method.request m2) <->
      CompositeField.typename (from_js rq1 n1) = CompositeField.typename (from_js rq2 n2)) /\
     (CompositeField.typename (Method.response m1) = CompositeField.typename (Method.response m2) <->
      CompositeField.typename (from_js rs1 n1) = CompositeField.typename (from_js rs2 n2))).
Proof.
  intros Hb. split; [|split].
  - intros name rq rs Hq Hs. rewrite load_jsonrpc_method_eq, Hb. simpl.
    unfold method_of. rewrite !bindR_eq, Hq, Hs. eexists. split; [reflexivity|].
    simpl. split; [reflexivity|]. split; [reflexivity|]. apply request_response_differ.
  - intros n1 n2 m1 m2 H1 H2.
    apply method_of_ok in H1. apply method_of_ok in H2.
    destruct H1 as [rq1 [rs1 [_ [_ ->]]]]. destruct H2 as [rq2 [rs2 [_ [_ ->]]]].
    simpl. apply request_response_differ.
  - intros n1 n2 rq1 rq2 rs1 rs2 m1 m2 Hq1 Hs1 Hq2 Hs2 H1 H2.
    apply method_of_ok in H1. apply method_of_ok in H2.
    destruct H1 as [rq1' [rs1' [Hq1' [Hs1' ->]]]]. destruct H2 as [rq2' [rs2' [Hq2' [Hs2' ->]]]].
    rewrite Hq1 in Hq1'. rewrite Hs1 in Hs1'. rewrite Hq2 in Hq2'. rewrite Hs2 in Hs2'.
    inversion Hq1'. inversion Hs1'. inversion Hq2'. inversion Hs2'. subst.
    simpl. split; apply append_suffix_inj.
Qed.

Lemma method_typenames_suffixed_witness :
  get_schema_bundle small_loads manifest_process = (Ok (0%nat, manifest_bundle), manifest_process) /\
  exists m,
    load_jsonrpc_method small_loads path_from_js "Getinfo" manifest_process = (Ok m, manifest_process) /\
    CompositeField.typename (Method.request m) = "GetinfoRequest" /\
    CompositeField.typename (Method.response m) = "GetinfoResponse".
Proof.
  assert (Hb : get_schema_bundle small_loads manifest_process
               = (Ok (0%nat, manifest_bundle), manifest_process)) by reflexivity.
  split; [exact Hb|].
  destruct (proj1 (method_typenames_suffixed small_loads path_from_js _ _ _ _ Hb)
              "Getinfo" empty_schema empty_schema) as [m [Hm [Hq [Hs _]]]];
    [vm_compute; reflexivity | vm_compute; reflexivity |].
  exists m. split; [exact Hm|]. split; [exact Hq | exact Hs].
Defined.

(** C1, counterexample: with a builder that names a type by its raw schema
    (the spec's description), the manifest's calls without parameters share
    one request subtree, and their request types one name, [ObjectRequest]. *)
Lemma manifest_request_typenames_collide :
  match load_jsonrpc_service small_loads title_from_js manifest_process with
  | (Ok s, _) =>
      CompositeField.typename (Method.request (nth 0 (Service.methods s) (Method.mk "Getinfo" (title_from_js JNull EmptyString) (title_from_js JNull EmptyString)))) = "ObjectRequest" /\
      ~ NoDup (map (fun m => CompositeField.typename (Method.request m)) (Service.methods s))
  | (Err _, _) => False
  end.
Proof.
  vm_compute. split; [reflexivity|].
  intros H. inversion H as [|x l Hnin Hnd]. apply Hnin. left. reflexivity.
Qed.

(** ** The notification loader *)

(** C2 *)
(** When the notifications mapping of the bundle has both
    [<lower name>.request.json] and [<lower name>.schema.json],
    [load_notification(name, typename)] returns a Notification named [name]
    with type name [typename], whose request type name is
    [Stream<typename>Request] and whose response type name is
    [<typename>Notification]. *)
Theorem notification_typenames loads from_js p i b q name typename nots rq rs :
  get_schema_bundle loads p = (Ok (i, b), q) ->
  getitem b "notifications" = Ok nots ->
  getitem nots (req_file name) = Ok rq ->
  getitem nots (resp_file name) = Ok rs ->
  exists n,
    load_notification loads from_js name typename p = (Ok n, q) /\
    Notification.name n = name /\
    Notification.typename n = typename /\
    CompositeField.typename (Notification.request n) = "Stream" ++ typename ++ "Request" /\
    CompositeField.typename (Notification.response n) = typename ++ "Notification".
Proof.
  intros Hb Hn Hq Hs. rewrite load_notification_eq, Hb. simpl.
  unfold notification_of. rewrite !bindR_eq, Hn, Hq, Hs.
  eexists. split; [reflexivity|]. simpl. auto.
Qed.

Lemma notification_typenames_witness :
  exists n,
    load_notification small_loads path_from_js "block_added" "BlockAdded" manifest_process
      = (Ok n, manifest_process) /\
    CompositeField.typename (Notification.request n) = "StreamBlockAddedRequest" /\
    CompositeField.typename (Notification.response n) = "BlockAddedNotification".
Proof.
  destruct (notification_typenames small_loads path_from_js manifest_process 0%nat manifest_bundle
              manifest_process "block_added" "BlockAdded"
              (JObj (flat_map (fun d => [(req_file (fst d), empty_schema); (resp_file (fst d), empty_schema)])
                              notification_names))
              empty_schema empty_schema)
    as [n [Hn [_ [_ [Hq Hs]]]]];
    [reflexivity | reflexivity | vm_compute; reflexivity | vm_compute; reflexivity |].
  exists n. split; [exact Hn|]. split; [exact Hq | exact Hs].
Defined.

(** ** Lookup failures *)

(** C3 *)
(** When the methods mapping of the bundle has no key
    [lightning-<lower name>.json], [load_jsonrpc_method(name)] raises
    [KeyError] for that key and returns no Method; when the notifications
    mapping lacks [<lower name>.request.json] or [<lower name>.schema.json],
    [load_notification] raises [KeyError] for a missing one of them and
    returns no Notification. *)
Theorem missing_schema_lookup_error loads from_js p i b q :
  get_schema_bundle loads p = (Ok (i, b), q) ->
  (forall name ms,
     getitem b "methods" = Ok (JObj ms) -> assoc (rpc_name name) ms = None ->
     load_jsonrpc_method loads from_js name p = (Err (KeyError (rpc_name name)), q)) /\
  (forall name typename ns,
     getitem b "notifications" = Ok (JObj ns) ->
     assoc (req_file name) ns = None \/ assoc (resp_file name) ns = None ->
     exists k,
       load_notification loads from_js name typename p = (Err (KeyError k), q) /\
       (k = req_file name \/ k = resp_file name) /\ assoc k ns = None).
Proof.
  intros Hb. split.
  - intros name ms Hm Hk. rewrite load_jsonrpc_method_eq, Hb. simpl.
    unfold method_of, method_subtree. rewrite !bindR_eq, Hm. simpl. rewrite Hk. reflexivity.
  - intros name typename ns Hn Hk. rewrite load_notification_eq, Hb. simpl.
    unfold notification_of. rewrite !bindR_eq, Hn. simpl.
    destruct (assoc (req_file name) ns) as [rq|] eqn:Hq.
    + destruct Hk as [Hk|Hk]; [discriminate|]. rewrite Hk. eauto.
    + eauto.
Qed.

Lemma missing_schema_lookup_error_witness :
  load_jsonrpc_method small_loads path_from_js "DoesNotExist" manifest_process
    = (Err (KeyError "lightning-doesnotexist.json"), manifest_process) /\
  exists k,
    load_notification small_loads path_from_js "ghost" "Ghost" manifest_process
      = (Err (KeyError k), manifest_process) /\ k = "ghost.request.json".
Proof.
  destruct (missing_schema_lookup_error small_loads path_from_js manifest_process 0%nat manifest_bundle
              manifest_process eq_refl) as [Hm Hn].
  split.
  - apply (Hm "DoesNotExist" _ eq_refl). vm_compute. reflexivity.
  - destruct (Hn "ghost" "Ghost" _ eq_refl) as [k [Hk [Hf Ha]]]; [left; vm_compute; reflexivity|].
    exists k. split; [exact Hk|].
    vm_compute in Hk. inversion Hk. reflexivity.
Defined.

Lemma get_schema_bundle_memoized_witness :
  get_schema_bundle small_loads (mkProcess None (Some braces) 0 0)
    = (Ok (0%nat, JObj []), mkProcess (Some (0%nat, JObj [])) (Some braces) 1 1) /\
  fst (calls small_loads [None; Some "not json"] (mkProcess (Some (0%nat, JObj [])) (Some braces) 1 1))
    = [Ok (0%nat, JObj []); Ok (0%nat, JObj [])] /\
  reads (snd (calls small_loads [None; Some "not json"] (mkProcess (Some (0%nat, JObj [])) (Some braces) 1 1)))
    = 1%nat.
Proof.
  assert (H : get_schema_bundle small_loads (mkProcess None (Some braces) 0 0)
              = (Ok (0%nat, JObj []), mkProcess (Some (0%nat, JObj [])) (Some braces) 1 1))
    by reflexivity.
  split; [exact H|].
  destruct (get_schema_bundle_memoized small_loads _ _ _ H [None; Some "not json"]) as [H1 [H2 _]].
  split; [exact H1 | exact H2].
Defined.

(** ** The service assembler *)

Lemma method_of_name from_js b n m : method_of from_js b n = Ok m -> Method.name m = n.
Proof. intros H. apply method_of_ok in H. destruct H as [rq [rs [_ [_ ->]]]]. reflexivity. Qed.

Lemma notification_of_names from_js b n t x :
  notification_of from_js b n t = Ok x -> Notification.name x = n /\ Notification.typename x = t.
Proof.
  unfold notification_of. rewrite !bindR_eq.
  destruct (getitem b "notifications") as [ns|e]; [|discriminate].
  destruct (getitem ns (req_file n)) as [rq|e]; [|discriminate].
  destruct (getitem ns (resp_file n)) as [rs|e]; [|discriminate].
  intros H. inversion H. auto.
Qed.

Lemma Forall2_ok_in {A B} (g : A -> result B) xs ys x e :
  Forall2 (fun x y => g x = Ok y) xs ys -> In x xs -> g x = Err e -> False.
Proof.
  intros H. induction H as [|x' y xs' ys' Hxy _ IH]; simpl; [tauto|].
  intros [->|Hin] He; [congruence | eauto].
Qed.

(** C9 *)
(** Once the bundle is loaded: when every manifest entry resolves,
    [load_jsonrpc_service()] returns a Service whose methods are the loaded
    Methods, one per manifest method name and in manifest order, whose
    notifications are the loaded Notifications, one per manifest descriptor
    and in order, and whose includes are [["primitives.proto"]]; when some
    loader raises, the service load raises that loader's exception and
    returns no Service. A loader also raises when the bundle cannot be
    loaded (the packaged [schema.json] missing or not JSON): the service
    load then raises that same exception and returns no Service. *)
Theorem load_jsonrpc_service_assembles loads from_js p :
  (forall i b q,
  get_schema_bundle loads p = (Ok (i, b), q) ->
  ((forall n, In n method_names -> exists m, method_of from_js b n = Ok m) ->
   (forall d, In d notification_names -> exists x, notification_of from_js b (fst d) (snd d) = Ok x) ->
   exists s,
     load_jsonrpc_service loads from_js p = (Ok s, q) /\
     Forall2 (fun n m => method_of from_js b n = Ok m /\ Method.name m = n)
       method_names (Service.methods s) /\
     Forall2 (fun d x => notification_of from_js b (fst d) (snd d) = Ok x /\
                         Notification.name x = fst d /\ Notification.typename x = snd d)
       notification_names (Service.notifications s) /\
     Service.includes s = ["primitives.proto"]) /\
  ((exists n e, In n method_names /\ method_of from_js b n = Err e) \/
   (exists d e, In d notification_names /\ notification_of from_js b (fst d) (snd d) = Err e) ->
   exists e,
     load_jsonrpc_service loads from_js p = (Err e, q) /\
     ((exists n, In n method_names /\ method_of from_js b n = Err e) \/
      (exists d, In d notification_names /\ notification_of from_js b (fst d) (snd d) = Err e)))) /\
  (forall e q,
   get_schema_bundle loads p = (Err e, q) ->
   load_jsonrpc_service loads from_js p = (Err e, q)).
Proof.
  split; [|intros e q Hb; rewrite load_jsonrpc_service_eq, Hb; reflexivity].
  intros i b q Hb. rewrite load_jsonrpc_service_eq, Hb. cbn [snd]. unfold service_of. split.
  - intros Hm Hn.
    destruct (mapM_result_all_ok _ _ Hm) as [ms Hms].
    destruct (mapM_result_all_ok (fun d => notification_of from_js b (fst d) (snd d)) _ Hn) as [ns Hns].
    rewrite !bindR_eq, Hms, Hns. eexists. split; [reflexivity|]. simpl.
    split; [|split; [|reflexivity]].
    + apply mapM_result_ok in Hms. eapply Forall2_impl; [|exact Hms].
      intros n m H. split; [exact H | exact (method_of_name _ _ _ _ H)].
    + apply mapM_result_ok in Hns. eapply Forall2_impl; [|exact Hns].
      intros d x H. split; [exact H | exact (notification_of_names _ _ _ _ _ H)].
  - intros Hfail. rewrite !bindR_eq.
    destruct (mapM (method_of from_js b) method_names) as [ms|e] eqn:Hms.
    + destruct (mapM (fun d => notification_of from_js b (fst d) (snd d)) notification_names)
        as [ns|e] eqn:Hns.
      * apply mapM_result_ok in Hms. apply mapM_result_ok in Hns. exfalso.
        destruct Hfail as [[n [e [Hin He]]] | [d [e [Hin He]]]].
        -- exact (Forall2_ok_in _ _ _ _ _ Hms Hin He).
        -- exact (Forall2_ok_in (fun d => notification_of from_js b (fst d) (snd d)) _ _ _ _ Hns Hin He).
      * exists e. split; [reflexivity|]. right. exact (mapM_result_err _ _ _ Hns).
    + exists e. split; [reflexivity|]. left. exact (mapM_result_err _ _ _ Hms).
Qed.

Lemma load_jsonrpc_service_assembles_witness :
  (exists s,
    load_jsonrpc_service small_loads path_from_js manifest_process = (Ok s, manifest_process) /\
    Service.includes s = ["primitives.proto"] /\
    map Method.name (Service.methods s) = method_names) /\
  load_jsonrpc_service small_loads path_from_js (mkProcess None None 0 0) =
    (Err (FileNotFoundError ["msggen"; "schema.json"]), mkProcess None None 0 1).
Proof.
  split; [|exact (proj2 (load_jsonrpc_service_assembles small_loads path_from_js
                          (mkProcess None None 0 0)) _ _ eq_refl)].
  destruct (proj1 (proj1 (load_jsonrpc_service_assembles small_loads path_from_js manifest_process)
                     0%nat manifest_bundle manifest_process eq_refl))
    as [s [Hs [Hm [_ Hi]]]].
  - intros n Hin. unfold method_of. rewrite !bindR_eq.
    assert (Hq : exists rq, method_subtree manifest_bundle n "request" = Ok rq).
    { revert Hin. vm_compute method_names. intros Hin.
      repeat (destruct Hin as [<-|Hin]; [vm_compute; eexists; reflexivity|]). destruct Hin. }
    assert (Hr : exists rs, method_subtree manifest_bundle n "response" = Ok rs).
    { revert Hin. vm_compute method_names. intros Hin.
      repeat (destruct Hin as [<-|Hin]; [vm_compute; eexists; reflexivity|]). destruct Hin. }
    destruct Hq as [rq ->]. destruct Hr as [rs ->]. eexists. reflexivity.
  - intros d Hin. simpl in Hin.
    repeat (destruct Hin as [<-|Hin]; [vm_compute; eexists; reflexivity|]). destruct Hin.
  - exists s. split; [exact Hs|]. split; [exact Hi|].
    clear Hs Hi. induction Hm as [|n m ns ms [_ Hn] _ IH]; simpl; congruence.
Defined.

(** C10 *)
(** Whenever [load_jsonrpc_service()] returns, the Service is named [Node]
    and has 96 methods and 5 notifications, whatever the bundle holds. *)
Theorem load_jsonrpc_service_shape loads from_js p s q :
  load_jsonrpc_service loads from_js p = (Ok s, q) ->
  Service.name s = "Node" /\
  length (Service.methods s) = 96%nat /\
  length (Service.notifications s) = 5%nat.
Proof.
  rewrite load_jsonrpc_service_eq.
  destruct (get_schema_bundle loads p) as [[o|e] q'] eqn:E; [|discriminate].
  unfold service_of. rewrite !bindR_eq.
  destruct (mapM (method_of from_js (snd o)) method_names) as [ms|e] eqn:Hms; [|discriminate].
  destruct (mapM _ notification_names) as [ns|e] eqn:Hns; [|discriminate].
  intros H. inversion H; subst. simpl.
  apply mapM_result_ok, Forall2_length in Hms. apply mapM_result_ok, Forall2_length in Hns.
  rewrite <- Hms, <- Hns. auto.
Qed.

Lemma load_jsonrpc_service_shape_witness :
  exists s,
    load_jsonrpc_service small_loads path_from_js manifest_process = (Ok s, manifest_process) /\
    length (Service.methods s) = 96%nat /\ length (Service.notifications s) = 5%nat.
Proof.
  assert (E0 : load_jsonrpc_service small_loads path_from_js manifest_process =
               (service_of path_from_js manifest_bundle, manifest_process))
    by (rewrite load_jsonrpc_service_eq,
          (get_schema_bundle_hit small_loads manifest_process (0%nat, manifest_bundle) eq_refl);
        reflexivity).
  assert (Hok : match service_of path_from_js manifest_bundle with Ok _ => True | Err _ => False end)
    by (vm_compute; exact I).
  revert E0 Hok. generalize (service_of path_from_js manifest_bundle).
  intros [s|e] E0 Hok; [|destruct Hok].
  destruct (load_jsonrpc_service_shape small_loads path_from_js manifest_process s manifest_process E0)
    as [_ [Hm Hn]].
  exists s. auto.
Defined.

(** ** Sorting file names *)

Lemma string_compare_trans (s1 s2 s3 : string) :
  String.compare s1 s2 <> Gt -> String.compare s2 s3 <> Gt -> String.compare s1 s3 <> Gt.
Proof.
  revert s2 s3. induction s1 as [|a s1 IH]; intros [|b s2] [|c s3]; simpl; try congruence.
  unfold Ascii.compare.
  destruct (N.compare_spec (N_of_ascii a) (N_of_ascii b)) as [E1|E1|E1];
  destruct (N.compare_spec (N_of_ascii b) (N_of_ascii c)) as [E2|E2|E2];
  destruct (N.compare_spec (N_of_ascii a) (N_of_ascii c)) as [E3|E3|E3];
  try (exfalso; lia); intros H1 H2; try congruence.
  exact (IH _ _ H1 H2).
Qed.

Lemma string_leb_trans (s1 s2 s3 : string) :
  String.leb s1 s2 = true -> String.leb s2 s3 = true -> String.leb s1 s3 = true.
Proof.
  unfold String.leb. intros H1 H2.
  destruct (String.compare s1 s3) eqn:E; auto.
  exfalso. refine (string_compare_trans s1 s2 s3 _ _ E).
  - destruct (String.compare s1 s2); congruence.
  - destruct (String.compare s2 s3); congruence.
Qed.

Ltac leb_facts :=
  match goal with
  | H1 : String.leb ?a ?b = true, H2 : String.leb ?b ?a = true |- _ =>
      pose proof (String.leb_antisym a b H1 H2); subst; try congruence
  | H1 : String.leb ?a ?b = false, H2 : String.leb ?b ?a = false |- _ =>
      destruct (String.leb_total a b); congruence
  | H1 : String.leb ?a ?b = true, H2 : String.leb ?b ?c = true,
    H3 : String.leb ?a ?c = false |- _ =>
      pose proof (string_leb_trans a b c H1 H2); congruence
  end.

Lemma leb_false_flip (a b : string) : String.leb a b = false -> String.leb b a = true.
Proof. intros H. destruct (String.leb_total a b); congruence. Qed.

Lemma insert_comm (x y : string) (l : list string) :
  x <> y -> insert x (insert y l) = insert y (insert x l).
Proof.
  intros Hxy. induction l as [|z l IH]; simpl.
  - destruct (String.leb x y) eqn:E1; destruct (String.leb y x) eqn:E2;
      try reflexivity; leb_facts.
  - destruct (String.leb y z) eqn:Eyz; destruct (String.leb x z) eqn:Exz; simpl;
      rewrite ?Eyz, ?Exz.
    + destruct (String.leb x y) eqn:E1; destruct (String.leb y x) eqn:E2; simpl;
        rewrite ?Eyz, ?Exz; try reflexivity; leb_facts.
    + destruct (String.leb x y) eqn:E1; simpl; rewrite ?Exz; try reflexivity.
      leb_facts.
    + destruct (String.leb y x) eqn:E2; simpl; rewrite ?Eyz; try reflexivity.
      leb_facts.
    + rewrite IH. reflexivity.
Qed.

Lemma sorted_permutation (l1 l2 : list string) :
  Permutation l1 l2 -> NoDup l1 -> sorted l1 = sorted l2.
Proof.
  intros P. induction P as [|x l l' P IH|x y l|l l' l'' P1 IH1 P2 IH2]; intros Hnd; simpl.
  - reflexivity.
  - inversion Hnd; subst. unfold sorted in *. simpl. rewrite IH by assumption. reflexivity.
  - inversion Hnd as [|a b Hnin Hnd']; subst.
    apply insert_comm. intros ->. apply Hnin. left. reflexivity.
  - rewrite IH1 by assumption. apply IH2. eapply Permutation_NoDup; eassumption.
Qed.

Lemma insert_permutation (x : string) (l : list string) : Permutation (x :: l) (insert x l).
Proof.
  induction l as [|y l IH]; simpl; [reflexivity|].
  destruct (String.leb x y); [reflexivity|].
  eapply perm_trans; [apply perm_swap|]. constructor. exact IH.
Qed.

Lemma sorted_is_permutation (l : list string) : Permutation l (sorted l).
Proof.
  induction l as [|x l IH]; simpl; [reflexivity|].
  eapply perm_trans; [constructor; exact IH|]. apply insert_permutation.
Qed.

Definition le_name (a b : string) : Prop := String.leb a b = true.

Lemma insert_strongly_sorted (x : string) (l : list string) :
  StronglySorted le_name l -> StronglySorted le_name (insert x l).
Proof.
  induction l as [|y l IH]; simpl; intros H.
  - repeat constructor.
  - inversion H as [|a b Hl Hf]; subst.
    destruct (String.leb x y) eqn:E.
    + constructor; [exact H|]. constructor; [exact E|].
      eapply Forall_impl; [|exact Hf]. intros z Hz. exact (string_leb_trans _ _ _ E Hz).
    + constructor; [exact (IH Hl)|].
      apply Forall_forall. intros z Hz.
      apply (Permutation_in _ (Permutation_sym (insert_permutation x l))) in Hz.
      destruct Hz as [<-|Hz]; [exact (leb_false_flip _ _ E)|].
      rewrite Forall_forall in Hf. exact (Hf z Hz).
Qed.

Lemma sorted_strongly_sorted (l : list string) : StronglySorted le_name (sorted l).
Proof.
  induction l as [|x l IH]; simpl; [constructor|]. apply insert_strongly_sorted. exact IH.
Qed.

Open Scope list_scope.

Lemma StronglySorted_filter {A} (R : A -> A -> Prop) (f : A -> bool) (l : list A) :
  StronglySorted R l -> StronglySorted R (filter f l).
Proof.
  induction l as [|x l IH]; simpl; intros H; [constructor|].
  inversion H as [|a b Hl Hf]; subst.
  destruct (f x); [|auto]. constructor; [auto|].
  rewrite Forall_forall in *. intros y Hy. apply filter_In in Hy. apply Hf, Hy.
Qed.

(** ** Lookups and writes in the file system *)

Lemma lookup_app (fs : node) (p1 p2 : path) :
  lookup fs (p1 ++ p2) = match lookup fs p1 with Some n => lookup n p2 | None => None end.
Proof.
  revert fs. induction p1 as [|c p1 IH]; intros fs; simpl; [reflexivity|].
  destruct fs as [txt|es]; [reflexivity|].
  destruct (assoc c es); [apply IH | reflexivity].
Qed.

Lemma assoc_odict_set_same {A} (kvs : list (string * A)) (k : string) (v : A) :
  assoc k (odict_set kvs k v) = Some v.
Proof.
  induction kvs as [|[k' v'] kvs IH]; simpl.
  - rewrite String.eqb_refl. reflexivity.
  - destruct (String.eqb k k') eqn:E; simpl; rewrite E; [reflexivity | exact IH].
Qed.

Lemma odict_set_fresh {A} (kvs : list (string * A)) (k : string) (v : A) :
  ~ In k (map fst kvs) -> odict_set kvs k v = kvs ++ [(k, v)].
Proof.
  induction kvs as [|[k' v'] kvs IH]; simpl; intros H; [reflexivity|].
  destruct (String.eqb k k') eqn:E.
  - apply String.eqb_eq in E. subst. exfalso. apply H. left. reflexivity.
  - rewrite IH by tauto. reflexivity.
Qed.

Lemma write_at_lookup (dest : path) (n : node) (p : path) (text : string) (n' : node) :
  write_at dest n p text = Ok n' -> lookup n' p = Some (File text).
Proof.
  revert n n'. induction p as [|c p IH]; intros n n' H.
  - destruct n; discriminate.
  - destruct n as [txt|es]; [destruct p; discriminate|].
    destruct p as [|c' p].
    + simpl in H. destruct (assoc c es) as [[t|es']|] eqn:E; try discriminate;
        inversion H; subst; simpl; rewrite assoc_odict_set_same; reflexivity.
    + assert (Hw : write_at dest (Dir es) (c :: c' :: p) text =
                   match assoc c es with
                   | Some n0 => n'' <- write_at dest n0 (c' :: p) text ;; Ok (Dir (odict_set es c n''))
                   | None => Err (FileNotFoundError dest)
                   end) by reflexivity.
      rewrite Hw in H. clear Hw.
      destruct (assoc c es) as [n0|] eqn:E; [|discriminate].
      rewrite bindR_eq in H. destruct (write_at dest n0 (c' :: p) text) as [n''|e] eqn:W;
        [|discriminate].
      inversion H; subst. cbn [lookup]. rewrite assoc_odict_set_same. exact (IH _ _ W).
Qed.

(** ** The two loops of [combine_schemas] *)

Lemma collect_ok loads fs d keep files acc res :
  NoDup files -> (forall f, In f files -> ~ In f (map fst acc)) ->
  collect loads fs d keep files acc = Ok res ->
  map fst res = map fst acc ++ filter keep files /\
  (forall k v, In (k, v) res -> In (k, v) acc \/ open_load loads fs (d ++ [k]) = Ok v).
Proof.
  revert acc. induction files as [|f files IH]; intros acc Hnd Hfresh H; simpl in H.
  - inversion H; subst. rewrite app_nil_r. auto.
  - inversion Hnd as [|a b Hnin Hnd']; subst. simpl.
    destruct (keep f).
    + destruct (open_load loads fs (d ++ [f])) as [j|e] eqn:Ej;
        [|discriminate].
      rewrite odict_set_fresh in H by (apply Hfresh; left; reflexivity).
      destruct (IH (acc ++ [(f, j)]) Hnd' ltac:(intros f' Hf'; rewrite map_app, in_app_iff;
                 intros [Hin|[Heq|[]]]; [exact (Hfresh f' (or_intror Hf') Hin)
                                         | simpl in Heq; subst; exact (Hnin Hf')]) H)
        as [Hk Hv].
      split.
      * rewrite Hk, map_app, <- app_assoc. reflexivity.
      * intros k v Hin. destruct (Hv k v Hin) as [Hacc|Hl]; [|auto].
        apply in_app_iff in Hacc. destruct Hacc as [Hacc|[Heq|[]]]; [auto|].
        inversion Heq; subst. auto.
    + apply (IH acc Hnd' (fun f' Hf' => Hfresh f' (or_intror Hf')) H).
Qed.

Lemma collect_equal loads fs1 fs2 d keep files acc :
  (forall f, open_load loads fs1 (d ++ [f]) = open_load loads fs2 (d ++ [f])) ->
  collect loads fs1 d keep files acc = collect loads fs2 d keep files acc.
Proof.
  intros Hf. revert acc. induction files as [|f files IH]; intros acc; simpl; [reflexivity|].
  destruct (keep f); [|apply IH]. rewrite Hf.
  destruct (open_load loads fs2 (d ++ [f])); [apply IH | reflexivity].
Qed.

Lemma string_append_assoc (a b c : string) : ((a ++ b) ++ c)%string = (a ++ (b ++ c))%string.
Proof. induction a as [|x a IH]; simpl; congruence. Qed.

Lemma open_load_same loads fs1 fs2 d es1 es2 f :
  lookup fs1 d = Some (Dir es1) -> lookup fs2 d = Some (Dir es2) ->
  same_entry (assoc f es1) (assoc f es2) ->
  open_load loads fs1 (d ++ [f]) = open_load loads fs2 (d ++ [f]).
Proof.
  intros L1 L2 Hs. unfold open_load. rewrite !lookup_app, L1, L2. simpl.
  destruct (assoc f es1) as [[c1|e1]|]; destruct (assoc f es2) as [[c2|e2]|];
    simpl in Hs; try contradiction; subst; reflexivity.
Qed.

(** The bundle depends on the names and contents of the two directories
    only, not on the order the operating system lists them in. *)
Lemma build_bundle_same loads fs1 fs2 dir :
  same_listing fs1 fs2 dir -> same_listing fs1 fs2 (dir ++ ["notification"]) ->
  build_bundle loads fs1 dir = build_bundle loads fs2 dir.
Proof.
  intros (es1 & es2 & L1 & L2 & Nd & P & Se) (ns1 & ns2 & M1 & M2 & Nd' & P' & Se').
  unfold build_bundle, iterdir. rewrite L1, L2, M1, M2. cbn [bind result_monad].
  rewrite (sorted_permutation _ _ P Nd).
  rewrite (collect_equal loads fs1 fs2 dir keep_method _ []
             (fun f => open_load_same loads fs1 fs2 dir es1 es2 f L1 L2 (Se f))).
  destruct (collect loads fs2 dir keep_method _ []) as [ms|e]; [|reflexivity].
  rewrite (sorted_permutation _ _ P' Nd').
  rewrite (collect_equal loads fs1 fs2 _ keep_notification _ []
             (fun f => open_load_same loads fs1 fs2 _ ns1 ns2 f M1 M2 (Se' f))).
  reflexivity.
Qed.

(** C6 *)
(** [combine_schemas] is deterministic: on two file systems whose schema
    directory and notification directory hold the same names and the same
    file contents, listed in any order, it builds the same bundle (or raises
    the same exception), and when both runs succeed the artifacts written at
    [dest] are the same text, [json.dump] of that bundle with indent 2. *)
Theorem combine_schemas_deterministic loads fs1 fs2 dir dest :
  same_listing fs1 fs2 dir -> same_listing fs1 fs2 (dir ++ ["notification"]) ->
  build_bundle loads fs1 dir = build_bundle loads fs2 dir /\
  forall b1 b2 fs1' fs2',
    combine_schemas loads fs1 dir dest = (Ok b1, fs1') ->
    combine_schemas loads fs2 dir dest = (Ok b2, fs2') ->
    b1 = b2 /\
    lookup fs1' dest = Some (File (dump 2 0 b1)) /\
    lookup fs2' dest = lookup fs1' dest.
Proof.
  intros Hd Hn. pose proof (build_bundle_same loads fs1 fs2 dir Hd Hn) as Hb.
  split; [exact Hb|]. intros b1 b2 fs1' fs2' H1 H2.
  unfold combine_schemas in H1, H2. rewrite Hb in H1.
  destruct (build_bundle loads fs2 dir) as [b|e]; [|discriminate].
  destruct (write_file fs1 dest (dump 2 0 b)) as [w1|e] eqn:W1; [|discriminate].
  destruct (write_file fs2 dest (dump 2 0 b)) as [w2|e] eqn:W2; [|discriminate].
  inversion H1; inversion H2; subst.
  apply write_at_lookup in W1. apply write_at_lookup in W2.
  rewrite W1, W2. auto.
Qed.

(** Settles [same_entry (assoc f es1) (assoc f es2)] for concrete listings
    with the names [ks]: [f] is one of them, or neither listing has it. *)
Ltac entries_by_name f ks :=
  lazymatch ks with
  | [] => exact I
  | ?k :: ?ks' =>
      let E := fresh "E" in
      destruct (String.eqb f k) eqn:E;
      [apply String.eqb_eq in E; subst f; vm_compute; first [exact I | reflexivity]
      | simpl; rewrite ?E; entries_by_name f ks']
  end.

Lemma combine_schemas_deterministic_witness :
  same_listing listed_fs relisted_fs ["schemas"] /\
  same_listing listed_fs relisted_fs ["schemas"; "notification"] /\
  build_bundle small_loads listed_fs ["schemas"] = build_bundle small_loads relisted_fs ["schemas"].
Proof.
  assert (Hd : same_listing listed_fs relisted_fs ["schemas"]).
  { eexists _, _. split; [reflexivity|]. split; [reflexivity|].
    split; [vm_compute; repeat constructor; simpl; intuition discriminate|].
    split; [vm_compute; apply Permutation_rev|].
    intros f. entries_by_name f
      ["lightning-getinfo.json"; "notification"; "lightning-connect.json"; "lightning-sql.json"]. }
  assert (Hn : same_listing listed_fs relisted_fs ["schemas"; "notification"]).
  { eexists _, _. split; [reflexivity|]. split; [reflexivity|].
    split; [vm_compute; repeat constructor; simpl; intuition discriminate|].
    split; [vm_compute; apply perm_swap|].
    intros f. entries_by_name f ["block_added.request.json"; "block_added.schema.json"]. }
  split; [exact Hd|]. split; [exact Hn|].
  exact (proj1 (combine_schemas_deterministic small_loads listed_fs relisted_fs ["schemas"]
                  ["schema.json"] Hd Hn)).
Defined.

(** C8 *)
(** When [combine_schemas] succeeds on a file system whose directories have
    distinct names, the artifact at [dest] is [json.dump] of the bundle with
    indent 2, the bundle has exactly the two keys [methods] and
    [notifications], in this order, each mapping a file name to that file's
    parsed content, and the file names of each mapping are the kept names
    of the directory in sorted order. The artifact's first level is
    indented by two spaces. *)
Theorem combine_schemas_artifact loads fs dir dest b fs' :
  fs_wf fs ->
  combine_schemas loads fs dir dest = (Ok b, fs') ->
  exists names nnames ms ns,
    iterdir fs dir = Ok names /\
    iterdir fs (dir ++ ["notification"]) = Ok nnames /\
    b = JObj [("methods", JObj ms); ("notifications", JObj ns)] /\
    map fst ms = filter keep_method (sorted names) /\
    map fst ns = filter keep_notification (sorted nnames) /\
    StronglySorted le_name (map fst ms) /\
    StronglySorted le_name (map fst ns) /\
    (forall k v, In (k, v) ms -> open_load loads fs (dir ++ [k]) = Ok v) /\
    (forall k v, In (k, v) ns -> open_load loads fs ((dir ++ ["notification"]) ++ [k]) = Ok v) /\
    lookup fs' dest = Some (File (dump 2 0 b)) /\
    dump 2 0 b =
      ("{" ++ newline_indent 2 1 ++ encode_string "methods" ++ ": " ++ dump 2 1 (JObj ms) ++ ","
       ++ newline_indent 2 1 ++ encode_string "notifications" ++ ": " ++ dump 2 1 (JObj ns)
       ++ newline_indent 2 0 ++ "}")%string.
Proof.
  intros Hwf H. unfold combine_schemas in H.
  destruct (build_bundle loads fs dir) as [b0|e] eqn:B; [|discriminate].
  destruct (write_file fs dest (dump 2 0 b0)) as [w|e] eqn:W; [|discriminate].
  inversion H; subst. clear H. apply write_at_lookup in W.
  unfold build_bundle, iterdir in B.
  destruct (lookup fs dir) as [[t|es]|] eqn:L1; cbn [bind result_monad] in B; try discriminate.
  destruct (collect loads fs dir keep_method (sorted (map fst es)) []) as [ms|e] eqn:C1;
    [|discriminate].
  destruct (lookup fs (dir ++ ["notification"])) as [[t|ns0]|] eqn:L2; try discriminate.
  destruct (collect loads fs _ keep_notification (sorted (map fst ns0)) []) as [ns|e] eqn:C2;
    [|discriminate].
  inversion B; subst. clear B.
  assert (N1 : NoDup (sorted (map fst es)))
    by (eapply Permutation_NoDup; [apply sorted_is_permutation | exact (Hwf _ _ L1)]).
  assert (N2 : NoDup (sorted (map fst ns0)))
    by (eapply Permutation_NoDup; [apply sorted_is_permutation | exact (Hwf _ _ L2)]).
  destruct (collect_ok loads fs dir keep_method _ [] ms N1 (fun _ _ H => H) C1) as [K1 V1].
  destruct (collect_ok loads fs _ keep_notification _ [] ns N2 (fun _ _ H => H) C2) as [K2 V2].
  simpl in K1, K2.
  exists (map fst es), (map fst ns0), ms, ns.
  split; [unfold iterdir; rewrite L1; reflexivity|].
  split; [unfold iterdir; rewrite L2; reflexivity|]. split; [reflexivity|].
  split; [exact K1|]. split; [exact K2|].
  split; [rewrite K1; apply StronglySorted_filter, sorted_strongly_sorted|].
  split; [rewrite K2; apply StronglySorted_filter, sorted_strongly_sorted|].
  split; [intros k v Hin; destruct (V1 k v Hin) as [[]|Hv]; exact Hv|].
  split; [intros k v Hin; destruct (V2 k v Hin) as [[]|Hv]; exact Hv|].
  split; [exact W|].
  cbn [dump map join]. rewrite !string_append_assoc. reflexivity.
Qed.

Lemma wfb_fs_wf (fs : node) : wfb fs = true -> fs_wf fs.
Proof.
  intros H d. revert fs H. induction d as [|c d IH]; intros fs H es L.
  - simpl in L. inversion L; subst. simpl in H. apply andb_true_iff in H as [H _].
    clear L. induction (map fst es) as [|x l IHl]; simpl in *; [constructor|].
    apply andb_true_iff in H as [Hx Hl]. constructor; [|auto].
    intros Hin. apply negb_true_iff in Hx.
    assert (Ht : existsb (String.eqb x) l = true)
      by (apply existsb_exists; exists x; split; [exact Hin | apply String.eqb_refl]).
    congruence.
  - destruct fs as [t|es0]; [discriminate|]. simpl in L.
    destruct (assoc c es0) as [n|] eqn:E; [|discriminate].
    simpl in H. apply andb_true_iff in H as [_ H].
    apply (IH n); [|exact L].
    clear L IH. induction es0 as [|[k v] es0 IHe]; simpl in E; [discriminate|].
    simpl in H. apply andb_true_iff in H as [Hv Hr].
    destruct (String.eqb c k); [inversion E; subst; exact Hv | exact (IHe Hr E)].
Qed.

Lemma combine_schemas_artifact_witness :
  exists b fs',
    combine_schemas small_loads listed_fs ["schemas"] ["schema.json"] = (Ok b, fs') /\
    lookup fs' ["schema.json"] = Some (File (dump 2 0 b)).
Proof.
  destruct (combine_schemas small_loads listed_fs ["schemas"] ["schema.json"])
    as [[b|e] fs'] eqn:E; [|vm_compute in E; discriminate].
  destruct (combine_schemas_artifact small_loads listed_fs ["schemas"] ["schema.json"] b fs'
              (wfb_fs_wf listed_fs eq_refl) E)
    as (names & nnames & ms & ns & _ & _ & _ & _ & _ & _ & _ & _ & _ & Hd & _).
  exists b, fs'. split; [reflexivity | exact Hd].
Defined.

(** A failed run writes nothing: every exception of [combine_schemas] is
    raised before [dest] is opened, or by opening it. *)
Lemma combine_schemas_error_unchanged loads fs dir dest e fs' :
  combine_schemas loads fs dir dest = (Err e, fs') -> fs' = fs.
Proof.
  unfold combine_schemas.
  destruct (build_bundle loads fs dir) as [b|e']; [|intros H; inversion H; reflexivity].
  destruct (write_file fs dest (dump 2 0 b)); intros H; inversion H; reflexivity.
Qed.

(** C5 *)
(** The notification loop keeps every name ending in [json], so a file
    [notes.ndjson] of the notification directory, whose extension is not
    [.json], gets an entry of the bundle's notifications mapping. *)
Theorem combine_schemas_bundles_ndjson :
  endswith "notes.ndjson" ".json" = false /\
  fst (combine_schemas small_loads (ndjson_fs braces) ["schemas"] ["schema.json"]) =
  Ok (JObj [("methods", JObj [("lightning-getinfo.json", JObj [])]);
            ("notifications", JObj [("block_added.request.json", JObj []); ("notes.ndjson", JObj [])])]).
Proof. split; vm_compute; reflexivity. Qed.

(** C7 *)
(** The notification loop parses [notes.ndjson], whose extension is not
    [.json]; holding two JSON records it is not one JSON document, and
    [combine_schemas] raises a decoding error for it (writing nothing)
    instead of skipping it. *)
Theorem combine_schemas_rejects_ndjson :
  endswith "notes.ndjson" ".json" = false /\
  combine_schemas small_loads (ndjson_fs two_records) ["schemas"] ["schema.json"] =
  (Err (JSONDecodeError ["schemas"; "notification"; "notes.ndjson"]), ndjson_fs two_records).
Proof. split; vm_compute; reflexivity. Qed.

(** ** Further properties of the loaders and of the bundler *)

(** *** File names *)

Lemma substring_0_length (s : string) : substring 0 (String.length s) s = s.
Proof. induction s as [|c s IH]; simpl; [reflexivity | rewrite IH; reflexivity]. Qed.

Lemma substring_app_length (a s : string) :
  substring (String.length a) (String.length s) (a ++ s)%string = s.
Proof. induction a as [|c a IH]; simpl; [apply substring_0_length | exact IH]. Qed.

Lemma endswith_append (a s : string) : endswith (a ++ s)%string s = true.
Proof.
  cbv beta zeta delta [endswith]. rewrite length_append.
  replace (String.length a + String.length s - String.length s)%nat with (String.length a) by lia.
  rewrite substring_app_length, String.eqb_refl, andb_true_r.
  apply Nat.leb_le. lia.
Qed.

Lemma append_prefix_inj (a s t : string) : (a ++ s)%string = (a ++ t)%string -> s = t.
Proof. induction a as [|c a IH]; simpl; intros H; [exact H | inversion H; auto]. Qed.

Lemma rpc_name_sql (n : string) :
  String.eqb (rpc_name n) "lightning-sql.json" = String.eqb (lower n) "sql".
Proof.
  unfold rpc_name. destruct (String.eqb (lower n) "sql") eqn:E.
  - apply String.eqb_eq in E. rewrite E. reflexivity.
  - apply String.eqb_neq in E. apply String.eqb_neq. intros H. apply E.
    change "lightning-sql.json" with ("lightning-" ++ ("sql" ++ ".json"))%string in H.
    apply append_prefix_inj in H. apply append_suffix_inj in H. exact H.
Qed.

Lemma keep_method_rpc_name (n : string) :
  keep_method (rpc_name n) = negb (String.eqb (lower n) "sql").
Proof.
  unfold keep_method. rewrite <- rpc_name_sql.
  assert (He : endswith (rpc_name n) ".json" = true).
  { unfold rpc_name. rewrite <- string_append_assoc. apply endswith_append. }
  rewrite He. reflexivity.
Qed.

Lemma keep_notification_req_file (n : string) : keep_notification (req_file n) = true.
Proof.
  unfold keep_notification, req_file.
  change ".request.json" with (".request." ++ "json")%string.
  rewrite <- string_append_assoc, endswith_append. reflexivity.
Qed.

Lemma keep_notification_resp_file (n : string) : keep_notification (resp_file n) = true.
Proof.
  unfold keep_notification, resp_file.
  change ".schema.json" with (".schema." ++ "json")%string.
  rewrite <- string_append_assoc, endswith_append. reflexivity.
Qed.

Lemma assoc_In {A} (k : string) (l : list (string * A)) (v : A) :
  assoc k l = Some v -> In (k, v) l.
Proof.
  induction l as [|[k' v'] l IH]; simpl; [discriminate|].
  destruct (String.eqb k k') eqn:E; intros H; [|right; auto].
  apply String.eqb_eq in E. inversion H; subst. left. reflexivity.
Qed.

Lemma assoc_key {A} (k : string) (l : list (string * A)) :
  In k (map fst l) -> exists v, assoc k l = Some v /\ In (k, v) l.
Proof.
  intros Hk. destruct (assoc k l) as [v|] eqn:E; [exists v; split; [reflexivity | apply assoc_In, E]|].
  exfalso. induction l as [|[k' v'] l IH]; simpl in *; [exact Hk|].
  destruct (String.eqb k k') eqn:Ek; [discriminate|].
  destruct Hk as [Hk|Hk]; [subst; rewrite String.eqb_refl in Ek; discriminate | auto].
Qed.

Lemma assoc_odict_set_other {A} (kvs : list (string * A)) (k k' : string) (v : A) :
  k' <> k -> assoc k' (odict_set kvs k v) = assoc k' kvs.
Proof.
  intros Hne. induction kvs as [|[k0 v0] kvs IH]; simpl.
  - apply String.eqb_neq in Hne. rewrite Hne. reflexivity.
  - destruct (String.eqb k k0) eqn:E; simpl.
    + apply String.eqb_eq in E. subst k0. apply String.eqb_neq in Hne. rewrite Hne. reflexivity.
    + destruct (String.eqb k' k0); [reflexivity | exact IH].
Qed.

Lemma odict_set_idem {A} (kvs : list (string * A)) (k : string) (v : A) :
  odict_set (odict_set kvs k v) k v = odict_set kvs k v.
Proof.
  induction kvs as [|[k0 v0] kvs IH]; simpl.
  - rewrite String.eqb_refl. reflexivity.
  - destruct (String.eqb k k0) eqn:E; simpl; rewrite E; [reflexivity | rewrite IH; reflexivity].
Qed.

Lemma odict_set_same {A} (kvs : list (string * A)) (k : string) (v : A) :
  assoc k kvs = Some v -> odict_set kvs k v = kvs.
Proof.
  induction kvs as [|[k0 v0] kvs IH]; simpl; [discriminate|].
  destruct (String.eqb k k0); intros H; [inversion H; subst; reflexivity | rewrite IH; auto].
Qed.

Lemma In_odict_set {A} (kvs : list (string * A)) (k : string) (v : A) (k' : string) (v' : A) :
  In (k', v') (odict_set kvs k v) -> In (k', v') kvs \/ (k' = k /\ v' = v).
Proof.
  induction kvs as [|[k0 v0] kvs IH]; simpl.
  - intros [H|[]]. inversion H; auto.
  - destruct (String.eqb k k0) eqn:E; simpl; intros [H|H].
    + inversion H; subst. apply String.eqb_eq in E. auto.
    + auto.
    + auto.
    + destruct (IH H); auto.
Qed.

Lemma keys_odict_set {A} (kvs : list (string * A)) (k : string) (v : A) (k' : string) :
  In k' (map fst (odict_set kvs k v)) <-> In k' (map fst kvs) \/ k = k'.
Proof.
  induction kvs as [|[k0 v0] kvs IH]; simpl.
  - tauto.
  - destruct (String.eqb k k0) eqn:E; simpl.
    + apply String.eqb_eq in E. subst. tauto.
    + rewrite IH. tauto.
Qed.

(** *** The two loops of [combine_schemas], on any listing *)

Lemma collect_keys loads fs d keep files acc res :
  collect loads fs d keep files acc = Ok res ->
  forall k, In k (map fst res) <-> In k (map fst acc) \/ (In k files /\ keep k = true).
Proof.
  revert acc. induction files as [|f files IH]; intros acc H k; simpl in H.
  - inversion H; subst. simpl. tauto.
  - destruct (keep f) eqn:Kf.
    + destruct (open_load loads fs (d ++ [f])) as [j|e]; [|discriminate].
      rewrite (IH _ H k), keys_odict_set. simpl.
      split; [intros [[H1|H1]|[H1 H2]]; subst; auto | intros [H1|[[H1|H1] H2]]; subst; auto].
    + rewrite (IH _ H k). simpl.
      split; [intros [H1|[H1 H2]]; auto | intros [H1|[[H1|H1] H2]]; subst; auto; congruence].
Qed.

Lemma collect_values loads fs d keep files acc res :
  collect loads fs d keep files acc = Ok res ->
  forall k v, In (k, v) res -> In (k, v) acc \/ open_load loads fs (d ++ [k]) = Ok v.
Proof.
  revert acc. induction files as [|f files IH]; intros acc H k v Hin; simpl in H.
  - inversion H; subst. auto.
  - destruct (keep f).
    + destruct (open_load loads fs (d ++ [f])) as [j|e] eqn:Ej; [|discriminate].
      destruct (IH _ H k v Hin) as [Hacc|Hv]; [|auto].
      destruct (In_odict_set _ _ _ _ _ Hacc) as [Ha|[-> ->]]; auto.
    + exact (IH _ H k v Hin).
Qed.

(** A listed name of [d] that [keep] accepts and whose file parses gets
    the parsed contents in the loop's dict. *)
Lemma collect_listed loads fs d keep es res k c j :
  lookup fs d = Some (Dir es) ->
  collect loads fs d keep (sorted (map fst es)) [] = Ok res ->
  lookup fs (d ++ [k]) = Some (File c) -> loads c = Some j -> keep k = true ->
  assoc k res = Some j.
Proof.
  intros L C Lk Hj Kk.
  rewrite lookup_app, L in Lk. simpl in Lk.
  destruct (assoc k es) as [n|] eqn:Ek; [|discriminate]. inversion Lk; subst n. clear Lk.
  assert (Hin : In k (sorted (map fst es))).
  { eapply Permutation_in; [apply sorted_is_permutation|].
    exact (in_map fst es (k, File c) (assoc_In _ _ _ Ek)). }
  destruct (assoc_key k res) as (v & Hv & Hkv).
  { apply (collect_keys _ _ _ _ _ _ _ C k). right. auto. }
  destruct (collect_values _ _ _ _ _ _ _ C k v Hkv) as [[]|Ho].
  unfold open_load in Ho. rewrite lookup_app, L in Ho. simpl in Ho. rewrite Ek in Ho.
  simpl in Ho. rewrite Hj in Ho. inversion Ho; subst. exact Hv.
Qed.

(** What a successful run of [combine_schemas] has read and written. *)
Lemma combine_schemas_ok_inv loads fs dir dest b fs' :
  combine_schemas loads fs dir dest = (Ok b, fs') ->
  exists es ns0 ms ns,
    lookup fs dir = Some (Dir es) /\
    lookup fs (dir ++ ["notification"]) = Some (Dir ns0) /\
    collect loads fs dir keep_method (sorted (map fst es)) [] = Ok ms /\
    collect loads fs (dir ++ ["notification"]) keep_notification (sorted (map fst ns0)) [] = Ok ns /\
    b = JObj [("methods", JObj ms); ("notifications", JObj ns)] /\
    write_file fs dest (dump 2 0 b) = Ok fs'.
Proof.
  unfold combine_schemas. intros H.
  destruct (build_bundle loads fs dir) as [b0|e] eqn:B; [|discriminate].
  destruct (write_file fs dest (dump 2 0 b0)) as [w|e] eqn:W; [|discriminate].
  inversion H; subst. clear H.
  unfold build_bundle, iterdir in B.
  destruct (lookup fs dir) as [[t|es]|] eqn:L1; cbn [bind result_monad] in B; try discriminate.
  destruct (collect loads fs dir keep_method (sorted (map fst es)) []) as [ms|e] eqn:C1;
    [|discriminate].
  destruct (lookup fs (dir ++ ["notification"])) as [[t|ns0]|] eqn:L2; try discriminate.
  destruct (collect loads fs _ keep_notification (sorted (map fst ns0)) []) as [ns|e] eqn:C2;
    [|discriminate].
  inversion B; subst. exists es, ns0, ms, ns. auto 7.
Qed.

(** *** Writing [dest] *)

Lemma write_at_cons (dest : path) (es : list (string * node)) (c c' : string) (p : path) (text : string) :
  write_at dest (Dir es) (c :: c' :: p) text =
  match assoc c es with
  | Some n0 => n'' <- write_at dest n0 (c' :: p) text ;; Ok (Dir (odict_set es c n''))
  | None => Err (FileNotFoundError dest)
  end.
Proof. reflexivity. Qed.

(** Writing at [p] changes nothing at a path that is neither [p] nor one of
    its parent directories. *)
Lemma write_at_lookup_other (dest : path) (n : node) (p : path) (text : string) (n' : node) :
  write_at dest n p text = Ok n' ->
  forall q, is_prefix q p = false -> lookup n' q = lookup n q.
Proof.
  revert n n'. induction p as [|c p IH]; intros n n' H q Hq.
  - destruct n; discriminate.
  - destruct n as [t|es]; [destruct p; discriminate|].
    destruct q as [|c0 q]; [discriminate|]. simpl in Hq.
    destruct p as [|c' p].
    + simpl in H. destruct (assoc c es) as [[t|es']|] eqn:E; try discriminate;
        inversion H; subst; clear H;
        (destruct (String.eqb c0 c) eqn:Ec;
         [apply String.eqb_eq in Ec; subst c0; destruct q; [discriminate|];
          simpl; rewrite assoc_odict_set_same, E; reflexivity
         | apply String.eqb_neq in Ec; simpl; rewrite assoc_odict_set_other by exact Ec;
           reflexivity]).
    + rewrite write_at_cons in H. destruct (assoc c es) as [n0|] eqn:E; [|discriminate].
      rewrite bindR_eq in H. destruct (write_at dest n0 (c' :: p) text) as [n''|e] eqn:W;
        [|discriminate].
      inversion H; subst; clear H.
      destruct (String.eqb c0 c) eqn:Ec.
      * apply String.eqb_eq in Ec. subst c0. simpl in Hq.
        simpl. rewrite assoc_odict_set_same, E. exact (IH _ _ W q Hq).
      * apply String.eqb_neq in Ec. simpl. rewrite assoc_odict_set_other by exact Ec.
        reflexivity.
Qed.

(** Writing the same text at the same place again leaves the tree as the
    first write left it. *)
Lemma write_at_stable (dest : path) (n : node) (p : path) (text : string) (n' : node) :
  write_at dest n p text = Ok n' -> write_at dest n' p text = Ok n'.
Proof.
  revert n n'. induction p as [|c p IH]; intros n n' H.
  - destruct n; discriminate.
  - destruct n as [t|es]; [destruct p; discriminate|].
    destruct p as [|c' p].
    + simpl in H. destruct (assoc c es) as [[t|es']|] eqn:E; try discriminate;
        inversion H; subst; clear H;
        simpl; rewrite assoc_odict_set_same, odict_set_idem; reflexivity.
    + rewrite write_at_cons in H. destruct (assoc c es) as [n0|] eqn:E; [|discriminate].
      rewrite bindR_eq in H. destruct (write_at dest n0 (c' :: p) text) as [n''|e] eqn:W;
        [|discriminate].
      inversion H; subst; clear H.
      rewrite write_at_cons, assoc_odict_set_same, bindR_eq, (IH _ _ W), odict_set_idem.
      reflexivity.
Qed.

Lemma is_prefix_app (p r q : path) : is_prefix (p ++ r) q = true -> is_prefix p q = true.
Proof.
  revert q. induction p as [|x p IH]; intros q H; [reflexivity|].
  destruct q as [|y q]; [discriminate|]. simpl in *.
  apply andb_true_iff in H as [H1 H2]. rewrite H1. simpl. exact (IH _ H2).
Qed.

(** The bundle is a function of the paths under [dir]. *)
Lemma build_bundle_under loads fs1 fs2 dir :
  (forall r, lookup fs1 (dir ++ r) = lookup fs2 (dir ++ r)) ->
  build_bundle loads fs1 dir = build_bundle loads fs2 dir.
Proof.
  intros H.
  assert (Hd : lookup fs1 dir = lookup fs2 dir)
    by (rewrite <- (app_nil_r dir); apply H).
  assert (Hn : forall r, lookup fs1 ((dir ++ ["notification"]) ++ r) =
                         lookup fs2 ((dir ++ ["notification"]) ++ r))
    by (intros r; rewrite <- !app_assoc; apply H).
  assert (Hn0 : lookup fs1 (dir ++ ["notification"]) = lookup fs2 (dir ++ ["notification"]))
    by apply H.
  assert (Ho : forall d, (forall r, lookup fs1 (d ++ r) = lookup fs2 (d ++ r)) ->
                 forall f, open_load loads fs1 (d ++ [f]) = open_load loads fs2 (d ++ [f]))
    by (intros d Hr f; unfold open_load; rewrite Hr; reflexivity).
  unfold build_bundle, iterdir. rewrite Hd, Hn0.
  destruct (lookup fs2 dir) as [[t|es]|]; [reflexivity| |reflexivity].
  cbn [bind result_monad].
  rewrite (collect_equal loads fs1 fs2 dir keep_method _ [] (Ho dir H)).
  destruct (collect loads fs2 dir keep_method _ []); [|reflexivity].
  destruct (lookup fs2 (dir ++ ["notification"])) as [[t|ns]|]; [reflexivity| |reflexivity].
  rewrite (collect_equal loads fs1 fs2 _ keep_notification _ [] (Ho _ Hn)).
  reflexivity.
Qed.

(** ** Extra properties *)

(** X1 *)
(** [get_schema_bundle()] keeps nothing from a failed call: the cache stays
    empty and no object identity is used, so the next call opens the
    packaged [schema.json] again and returns its contents once the file
    holds a JSON document. *)
Theorem get_schema_bundle_failure_retried loads p e q :
  get_schema_bundle loads p = (Err e, q) ->
  cache p = None /\ cache q = None /\ next_id q = next_id p /\ reads q = S (reads p) /\
  forall txt j, loads txt = Some j ->
    get_schema_bundle loads (set_storage q (Some txt)) =
    (Ok (next_id p, j), mkProcess (Some (next_id p, j)) (Some txt) (S (next_id p)) (S (S (reads p)))).
Proof.
  unfold get_schema_bundle at 1. destruct (cache p) eqn:Hc; [discriminate|].
  intros H. assert (Hq : q = mkProcess None (storage p) (next_id p) (S (reads p))).
  { destruct (storage p) as [txt|]; [destruct (loads txt)|]; inversion H; reflexivity. }
  subst q. split; [reflexivity|]. split; [reflexivity|]. split; [reflexivity|].
  split; [reflexivity|].
  intros txt j Hj. unfold get_schema_bundle, set_storage. simpl. rewrite Hj. reflexivity.
Qed.

Lemma get_schema_bundle_failure_retried_witness :
  get_schema_bundle small_loads (mkProcess None None 0 0) =
    (Err (FileNotFoundError ["msggen"; "schema.json"]), mkProcess None None 0 1) /\
  get_schema_bundle small_loads (set_storage (mkProcess None None 0 1) (Some braces)) =
    (Ok (0%nat, JObj []), mkProcess (Some (0%nat, JObj [])) (Some braces) 1 2).
Proof.
  assert (H : get_schema_bundle small_loads (mkProcess None None 0 0) =
              (Err (FileNotFoundError ["msggen"; "schema.json"]), mkProcess None None 0 1))
    by reflexivity.
  split; [exact H|].
  exact (proj2 (proj2 (proj2 (proj2 (get_schema_bundle_failure_retried small_loads _ _ _ H))))
           braces (JObj []) eq_refl).
Defined.

(** X2 *)
(** [load_jsonrpc_service()] opens the packaged [schema.json] at most once
    for its 101 loader calls and never changes the storage. With the bundle
    already cached it leaves the process as it was; with an empty cache and
    a packaged file holding a JSON document, the bundle is cached afterwards
    even when the service raises. *)
Theorem load_jsonrpc_service_single_read loads from_js p r q :
  load_jsonrpc_service loads from_js p = (r, q) ->
  storage q = storage p /\ (reads q = reads p \/ reads q = S (reads p)) /\
  (cache p <> None -> q = p) /\
  (forall txt j, cache p = None -> storage p = Some txt -> loads txt = Some j ->
     cache q = Some (next_id p, j)).
Proof.
  rewrite load_jsonrpc_service_eq. unfold get_schema_bundle.
  destruct (cache p) as [o|] eqn:Hc.
  - intros H. inversion H; subst q. split; [reflexivity|]. split; [auto|].
    split; [reflexivity|]. intros txt j Hn. discriminate.
  - destruct (storage p) as [txt|] eqn:Hs; [destruct (loads txt) as [j|] eqn:Hj|];
      cbv beta iota zeta; intros H; inversion H; subst q; simpl;
      (split; [reflexivity|]); (split; [auto|]); (split; [intros Hn; congruence|]);
      intros txt' j' _ Hs' Hj'; try discriminate;
      inversion Hs'; subst txt'; congruence.
Qed.

Lemma load_jsonrpc_service_single_read_witness :
  fst (load_jsonrpc_service small_loads path_from_js (mkProcess None (Some braces) 0 0)) =
    Err (KeyError "methods") /\
  cache (snd (load_jsonrpc_service small_loads path_from_js (mkProcess None (Some braces) 0 0))) =
    Some (0%nat, JObj []).
Proof.
  split; [vm_compute; reflexivity|].
  destruct (load_jsonrpc_service small_loads path_from_js (mkProcess None (Some braces) 0 0))
    as [r q] eqn:E.
  exact (proj2 (proj2 (proj2 (load_jsonrpc_service_single_read small_loads path_from_js _ r q E)))
           braces (JObj []) eq_refl eq_refl eq_refl).
Defined.

(** X6 *)
(** The file names the loaders look up pass the filters of
    [combine_schemas]: [lightning-<name.lower()>.json] passes the method
    filter exactly when the lower-cased name is not [sql], and
    [<name.lower()>.request.json] and [<name.lower()>.schema.json] always
    pass the notification filter. *)
Theorem loader_files_pass_bundle_filters (n : string) :
  keep_method (rpc_name n) = negb (String.eqb (lower n) "sql") /\
  keep_notification (req_file n) = true /\ keep_notification (resp_file n) = true.
Proof.
  split; [apply keep_method_rpc_name|].
  split; [apply keep_notification_req_file | apply keep_notification_resp_file].
Qed.

(** X7 *)
(** A bundle written by [combine_schemas] serves [load_jsonrpc_method]: for
    a name whose file [lightning-<name.lower()>.json] is in the schema
    directory and holds the JSON document [j], the loader's lookups of
    ["request"] and ["response"] read those members of [j], unless the
    lower-cased name is [sql]. *)
Theorem combined_bundle_serves_methods loads fs dir dest b fs' n c j :
  combine_schemas loads fs dir dest = (Ok b, fs') ->
  lookup fs (dir ++ [rpc_name n]) = Some (File c) -> loads c = Some j ->
  lower n <> "sql" ->
  forall w, method_subtree b n w = getitem j w.
Proof.
  intros H Lk Hj Hn w.
  destruct (combine_schemas_ok_inv _ _ _ _ _ _ H)
    as (es & ns0 & ms & ns & L1 & L2 & C1 & C2 & -> & _).
  assert (Kk : keep_method (rpc_name n) = true)
    by (rewrite keep_method_rpc_name; apply String.eqb_neq in Hn; rewrite Hn; reflexivity).
  pose proof (collect_listed loads fs dir keep_method es ms (rpc_name n) c j L1 C1 Lk Hj Kk) as Ha.
  assert (Hg : getitem (JObj ms) (rpc_name n) = Ok j) by (unfold getitem; rewrite Ha; reflexivity).
  unfold method_subtree. cbn [bind result_monad].
  change (getitem (JObj [("methods", JObj ms); ("notifications", JObj ns)]) "methods")
    with (Ok (JObj ms)).
  cbv beta iota. rewrite Hg. reflexivity.
Qed.

Lemma combined_bundle_serves_methods_witness :
  exists b fs',
    combine_schemas small_loads listed_fs ["schemas"] ["schema.json"] = (Ok b, fs') /\
    method_subtree b "Getinfo" "request" = Err (KeyError "request").
Proof.
  destruct (combine_schemas small_loads listed_fs ["schemas"] ["schema.json"])
    as [[b|e] fs'] eqn:E; [|vm_compute in E; discriminate].
  exists b, fs'. split; [reflexivity|].
  rewrite (combined_bundle_serves_methods small_loads listed_fs ["schemas"] ["schema.json"] b fs'
             "Getinfo" braces (JObj []) E eq_refl eq_refl ltac:(vm_compute; discriminate)).
  reflexivity.
Defined.

(** X8 *)
(** A bundle written by [combine_schemas] never serves the method [sql]:
    [lightning-sql.json] is left out of it, so [load_jsonrpc_method] on a
    name that lower-cases to [sql] raises [KeyError], whatever the schema
    directory holds. *)
Theorem combined_bundle_lacks_sql loads from_js fs dir dest b fs' n :
  combine_schemas loads fs dir dest = (Ok b, fs') -> lower n = "sql" ->
  method_of from_js b n = Err (KeyError "lightning-sql.json").
Proof.
  intros H Hn.
  destruct (combine_schemas_ok_inv _ _ _ _ _ _ H)
    as (es & ns0 & ms & ns & L1 & L2 & C1 & C2 & -> & _).
  assert (Hr : rpc_name n = "lightning-sql.json") by (unfold rpc_name; rewrite Hn; reflexivity).
  assert (Ha : assoc "lightning-sql.json" ms = None).
  { destruct (assoc "lightning-sql.json" ms) as [v|] eqn:E; [|reflexivity].
    apply assoc_In in E. apply (in_map fst) in E. simpl in E.
    apply (collect_keys _ _ _ _ _ _ _ C1) in E. destruct E as [[]|[_ Hk]].
    vm_compute in Hk. discriminate. }
  assert (Hg : getitem (JObj ms) "lightning-sql.json" = Err (KeyError "lightning-sql.json"))
    by (unfold getitem; rewrite Ha; reflexivity).
  unfold method_of, method_subtree. rewrite Hr. cbn [bind result_monad].
  change (getitem (JObj [("methods", JObj ms); ("notifications", JObj ns)]) "methods")
    with (Ok (JObj ms)).
  cbv beta iota. rewrite Hg. reflexivity.
Qed.

Lemma combined_bundle_lacks_sql_witness :
  lookup listed_fs ["schemas"; "lightning-sql.json"] = Some (File braces) /\
  exists b fs',
    combine_schemas small_loads listed_fs ["schemas"] ["schema.json"] = (Ok b, fs') /\
    method_of path_from_js b "Sql" = Err (KeyError "lightning-sql.json").
Proof.
  split; [reflexivity|].
  destruct (combine_schemas small_loads listed_fs ["schemas"] ["schema.json"])
    as [[b|e] fs'] eqn:E; [|vm_compute in E; discriminate].
  exists b, fs'. split; [reflexivity|].
  exact (combined_bundle_lacks_sql small_loads path_from_js listed_fs ["schemas"] ["schema.json"]
           b fs' "Sql" E eq_refl).
Defined.

(** X9 *)
(** A bundle written by [combine_schemas] serves [load_notification]: when
    the notification directory holds [<name.lower()>.request.json] and
    [<name.lower()>.schema.json] with JSON documents [j1] and [j2], the
    loader returns the notification built from [j1] and [j2] with the type
    names [Stream<typename>Request] and [<typename>Notification]. *)
Theorem combined_bundle_serves_notifications loads from_js fs dir dest b fs' n t c1 j1 c2 j2 :
  combine_schemas loads fs dir dest = (Ok b, fs') ->
  lookup fs ((dir ++ ["notification"]) ++ [req_file n]) = Some (File c1) -> loads c1 = Some j1 ->
  lookup fs ((dir ++ ["notification"]) ++ [resp_file n]) = Some (File c2) -> loads c2 = Some j2 ->
  notification_of from_js b n t =
  Ok (Notification.mk n t
        (CompositeField.set_typename (from_js j1 n) ("Stream" ++ t ++ "Request")%string)
        (CompositeField.set_typename (from_js j2 n) (t ++ "Notification")%string)).
Proof.
  intros H Lq H1 Ls H2.
  destruct (combine_schemas_ok_inv _ _ _ _ _ _ H)
    as (es & ns0 & ms & ns & L1 & L2 & C1 & C2 & -> & _).
  pose proof (collect_listed loads fs _ keep_notification ns0 ns (req_file n) c1 j1 L2 C2 Lq H1
                (keep_notification_req_file n)) as Ha1.
  pose proof (collect_listed loads fs _ keep_notification ns0 ns (resp_file n) c2 j2 L2 C2 Ls H2
                (keep_notification_resp_file n)) as Ha2.
  assert (G1 : getitem (JObj ns) (req_file n) = Ok j1) by (unfold getitem; rewrite Ha1; reflexivity).
  assert (G2 : getitem (JObj ns) (resp_file n) = Ok j2) by (unfold getitem; rewrite Ha2; reflexivity).
  unfold notification_of. cbn [bind result_monad].
  change (getitem (JObj [("methods", JObj ms); ("notifications", JObj ns)]) "notifications")
    with (Ok (JObj ns)).
  cbv beta iota. rewrite G1, G2. reflexivity.
Qed.

Lemma combined_bundle_serves_notifications_witness :
  exists b fs' x,
    combine_schemas small_loads listed_fs ["schemas"] ["schema.json"] = (Ok b, fs') /\
    notification_of path_from_js b "block_added" "BlockAdded" = Ok x.
Proof.
  destruct (combine_schemas small_loads listed_fs ["schemas"] ["schema.json"])
    as [[b|e] fs'] eqn:E; [|vm_compute in E; discriminate].
  exists b, fs'. eexists. split; [reflexivity|].
  exact (combined_bundle_serves_notifications small_loads path_from_js listed_fs ["schemas"]
           ["schema.json"] b fs' "block_added" "BlockAdded" braces (JObj []) braces (JObj [])
           E eq_refl eq_refl eq_refl eq_refl).
Defined.

(** X10 *)
(** [combine_schemas] changes the file system only at [dest]: every path
    that is neither [dest] nor one of its parent directories looks up the
    same node afterwards, whether the run succeeds or raises. *)
Theorem combine_schemas_touches_only_dest loads fs dir dest r fs' :
  combine_schemas loads fs dir dest = (r, fs') ->
  forall q, is_prefix q dest = false -> lookup fs' q = lookup fs q.
Proof.
  unfold combine_schemas. intros H q Hq.
  destruct (build_bundle loads fs dir) as [b|e]; [|inversion H; reflexivity].
  destruct (write_file fs dest (dump 2 0 b)) as [w|e] eqn:W; inversion H; subst; [|reflexivity].
  exact (write_at_lookup_other dest fs dest _ fs' W q Hq).
Qed.

Lemma combine_schemas_touches_only_dest_witness :
  lookup (snd (combine_schemas small_loads listed_fs ["schemas"] ["schema.json"])) ["schemas"] =
  lookup listed_fs ["schemas"].
Proof.
  destruct (combine_schemas small_loads listed_fs ["schemas"] ["schema.json"]) as [r fs'] eqn:E.
  exact (combine_schemas_touches_only_dest small_loads listed_fs ["schemas"] ["schema.json"] r fs'
           E ["schemas"] eq_refl).
Defined.

(** X11 *)
(** Running [combine_schemas] again on the file system it left gives the
    same result and the same file system, when [dest] is not inside
    [schema_dir]. *)
Theorem combine_schemas_idempotent loads fs dir dest :
  is_prefix dir dest = false ->
  combine_schemas loads (snd (combine_schemas loads fs dir dest)) dir dest =
  combine_schemas loads fs dir dest.
Proof.
  intros Hd. destruct (combine_schemas loads fs dir dest) as [[b|e] fs'] eqn:E; simpl snd.
  - assert (E' := E). unfold combine_schemas in E'.
    destruct (build_bundle loads fs dir) as [b0|e] eqn:B; [|discriminate].
    destruct (write_file fs dest (dump 2 0 b0)) as [w|e] eqn:W; inversion E'; subst. clear E'.
    assert (Hu : forall r, lookup fs' (dir ++ r) = lookup fs (dir ++ r)).
    { intros r. apply (write_at_lookup_other dest fs dest _ fs' W).
      destruct (is_prefix (dir ++ r) dest) eqn:X; [|reflexivity].
      apply is_prefix_app in X. congruence. }
    unfold combine_schemas. rewrite (build_bundle_under loads fs' fs dir Hu), B.
    unfold write_file. rewrite (write_at_stable dest fs dest _ fs' W). reflexivity.
  - assert (Hf := combine_schemas_error_unchanged _ _ _ _ _ _ E). subst fs'. exact E.
Qed.

Lemma combine_schemas_idempotent_witness :
  is_prefix ["schemas"] ["schema.json"] = false /\
  combine_schemas small_loads (snd (combine_schemas small_loads listed_fs ["schemas"] ["schema.json"]))
    ["schemas"] ["schema.json"] =
  combine_schemas small_loads listed_fs ["schemas"] ["schema.json"].
Proof.
  split; [reflexivity|].
  exact (combine_schemas_idempotent small_loads listed_fs ["schemas"] ["schema.json"] eq_refl).
Defined.
